(** * mothership-setup: the provisioning workflow of [bin/setup.js]

    A shallow embedding of the installer script: the promise-returning
    helpers, the bounded retry policy [retryPromiseIfNeeded], the
    docker-compose template and the linear workflow [main], followed by
    the properties of the retry policy and of the workflow. *)

From Stdlib Require Import ZArith List String Ascii Bool Lia.
From Equations Require Import Equations.
Import ListNotations.

Set Implicit Arguments.
Open Scope string_scope.
Open Scope list_scope.

(** ** Promises as state-passing computations *)

(** A JavaScript error value; the script only ever passes errors along. *)
Definition Error := string.

(** How an awaited promise-returning computation ends.  [Fulfilled] and
    [Rejected] are the two settled states of the promise, [Exited] means
    [process.exit()] was called while it ran, [Unsettled] means that the
    promise stays pending for ever (nothing calls [resolve] or [reject]),
    and [Crashed] means that an exception was thrown where no promise
    catches it, in the callback of a library call: node reports an uncaught
    exception and the process dies. *)
Inductive Outcome (A : Type) : Type :=
| Fulfilled (a : A)
| Rejected (err : Error)
| Exited
| Unsettled
| Crashed.

Arguments Rejected {A} err.
Arguments Exited {A}.
Arguments Unsettled {A}.
Arguments Crashed {A}.

(** A computation over a mutable world [S]. *)
Definition Async (S A : Type) : Type := S -> Outcome A * S.

Definition ret {S A} (a : A) : Async S A := fun s => (Fulfilled a, s).

(** [await m] followed by [k], which is also [m.then(k)]. *)
Definition bind {S A B} (m : Async S A) (k : A -> Async S B) : Async S B :=
  fun s =>
    match m s with
    | (Fulfilled a, s1) => k a s1
    | (Rejected err, s1) => (Rejected err, s1)
    | (Exited, s1) => (Exited, s1)
    | (Unsettled, s1) => (Unsettled, s1)
    | (Crashed, s1) => (Crashed, s1)
    end.

(** [m.catch(h)]. *)
Definition catch {S A} (m : Async S A) (h : Error -> Async S A) : Async S A :=
  fun s =>
    match m s with
    | (Fulfilled a, s1) => (Fulfilled a, s1)
    | (Rejected err, s1) => h err s1
    | (Exited, s1) => (Exited, s1)
    | (Unsettled, s1) => (Unsettled, s1)
    | (Crashed, s1) => (Crashed, s1)
    end.

(** Calling an [async] function without awaiting the promise it returns:
    the calls it issues are issued, the way its promise settles is dropped. *)
Definition detached {S A} (m : Async S A) : Async S unit :=
  fun s =>
    match m s with
    | (Exited, s1) => (Exited, s1)
    | (Crashed, s1) => (Crashed, s1)
    | (_, s1) => (Fulfilled tt, s1)
    end.

Declare Scope async_scope.
Delimit Scope async_scope with async.
Notation "x <- m ;; k" := (bind m (fun x => k))
  (at level 100, m at next level, right associativity) : async_scope.
Notation "m ;; k" := (bind m (fun _ => k))
  (at level 100, right associativity) : async_scope.

(** ** retryPromiseIfNeeded *)

Section RetryPolicy.
Context {S T : Type}.

(** [fn] returns a promise when called; [failedAttemptCb] is optional. *)
Variable fn : Async S T.
Variable failedAttemptCb : option (Error -> Async S unit).

(** [if (failedAttemptCb) { failedAttemptCb(err); }] *)
Definition invokeCb (err : Error) : Async S unit :=
  match failedAttemptCb with
  | Some cb => cb err
  | None => ret tt
  end.

Variable maxTries : Z.

(** The closure [attemptPromise], with the captured counter [attempt] made
    an argument.  The callback runs inside the [.catch] handler and
    nothing catches what it throws: the handler then stops before the
    recursive call, and neither [resolve] nor [reject] is ever called. *)
Equations? attemptPromise (attempt : Z) (s : S) : Outcome T * S
  by wf (Z.to_nat (maxTries - attempt)) lt :=
  attemptPromise attempt s with fn s => {
    | (Fulfilled result, s1) => (Fulfilled result, s1);
    | (Rejected err, s1) with Z_ge_lt_dec attempt maxTries => {
        | left _ => (Rejected err, s1);
        | right _ with invokeCb err s1 => {
            | (Fulfilled _, s2) => attemptPromise (attempt + 1) s2;
            | (Rejected _, s2) => (Unsettled, s2);
            | (Exited, s2) => (Exited, s2);
            | (Unsettled, s2) => (Unsettled, s2);
            | (Crashed, s2) => (Crashed, s2) } };
    | (Exited, s1) => (Exited, s1);
    | (Unsettled, s1) => (Unsettled, s1);
    | (Crashed, s1) => (Crashed, s1) }.
Proof. lia. Qed.

End RetryPolicy.

(** [maxTries = 5] is the default of the third parameter. *)
Definition maxTriesOrDefault (maxTries : option Z) : Z :=
  match maxTries with
  | Some n => n
  | None => 5%Z
  end.

Definition retryPromiseIfNeeded {S T} (fn : Async S T)
    (failedAttemptCb : option (Error -> Async S unit))
    (maxTries : option Z) : Async S T :=
  attemptPromise fn failedAttemptCb (maxTriesOrDefault maxTries) 1.


(** ** Instrumented actions and callbacks

    A mock action or callback that records its invocations, the way a test
    double does, in a trace kept next to the state it runs on. *)

Inductive RetryEvent (T : Type) : Type :=
| Attempt (o : Outcome T)
| Compensation (err : Error) (o : Outcome unit).

Arguments Compensation {T} err o.

Definition traced_fn {S T} (fn : Async S T) : Async (S * list (RetryEvent T)) T :=
  fun st =>
    let (o, s1) := fn (fst st) in
    (o, (s1, snd st ++ [Attempt o])).

Definition traced_cb {S T} (cb : Error -> Async S unit) (err : Error)
  : Async (S * list (RetryEvent T)) unit :=
  fun st =>
    let (o, s1) := cb err (fst st) in
    (o, (s1, snd st ++ [Compensation err o])).

Definition is_attempt {T} (ev : RetryEvent T) : bool :=
  match ev with Attempt _ => true | Compensation _ _ => false end.

Definition attempts {T} (tr : list (RetryEvent T)) : nat :=
  List.length (filter is_attempt tr).

Definition compensations {T} (tr : list (RetryEvent T)) : nat :=
  List.length (filter (fun ev => negb (is_attempt ev)) tr).

(** A retry trace in which every failed attempt that is not the last event
    is followed at once by the callback, called with the error of that
    attempt, and in which another attempt follows only a callback that
    returned. *)
Fixpoint interleaved {T} (tr : list (RetryEvent T)) : Prop :=
  match tr with
  | [Attempt _] => True
  | Attempt (Rejected err) :: Compensation err' o :: rest =>
      err = err' /\
      match o with
      | Fulfilled _ => interleaved rest
      | _ => rest = []
      end
  | _ => False
  end.

(** What an execution of an action under retry looks like from outside:
    from state [s] the action is rejected [failures] times, the callback
    returns after each of these, and the next attempt ends as [o], leaving
    the state [s_end]. *)
Fixpoint fails_then {S T} (fn : Async S T)
    (failedAttemptCb : option (Error -> Async S unit))
    (failures : nat) (s : S) (o : Outcome T) (s_end : S) : Prop :=
  match failures with
  | O => fn s = (o, s_end)
  | Datatypes.S k =>
      exists err s1 s2,
        fn s = (Rejected err, s1) /\
        invokeCb failedAttemptCb err s1 = (Fulfilled tt, s2) /\
        fails_then fn failedAttemptCb k s2 o s_end
  end.

(** Test doubles over a counter of invocations: an action that is rejected
    until its invocation number [succeedAt], and callbacks that return,
    throw, or throw and swallow what they threw. *)
Definition flaky (succeedAt : nat) : Async nat string :=
  fun invoked =>
    if Nat.ltb (invoked + 1) succeedAt
    then (Rejected "down", invoked + 1)
    else (Fulfilled "up", invoked + 1).

Definition alwaysDown : Async nat string :=
  fun invoked => (Rejected "down", invoked + 1).

Definition quietCb (err : Error) : Async nat unit := ret tt.

Definition throwingCb (err : Error) : Async nat unit :=
  fun invoked => (Rejected "cleanup failed", invoked).

Definition swallowingCb (err : Error) : Async nat unit :=
  catch (throwingCb err) (fun _ => ret tt).

(** ** Strings *)

Infix "+++" := String.append (right associativity, at level 60).

Definition nl : string := String "010"%char EmptyString.
Definition dq : string := String "034"%char EmptyString.

(** A [string] holds the UTF-8 bytes of a JavaScript string.
    [String.prototype.trim] removes the white space and the line
    terminators of ECMAScript.  Those that fit in one byte are TAB, LF, VT,
    FF, CR and SP. *)
Definition isWhiteSpace (c : ascii) : bool :=
  match nat_of_ascii c with
  | 9 | 10 | 11 | 12 | 13 | 32 => true
  | _ => false
  end.

(** U+00A0, no-break space, is the bytes C2 A0. *)
Definition isWhiteSpace2 (c0 c1 : ascii) : bool :=
  ((nat_of_ascii c0 =? 194) && (nat_of_ascii c1 =? 160))%nat.

(** The ones of three bytes: U+1680 (E1 9A 80); U+2000 to U+200A, the line
    and paragraph separators U+2028 and U+2029 and U+202F (E2 80 followed
    by 80 to 8A, A8, A9, AF); U+205F (E2 81 9F); U+3000 (E3 80 80); and
    U+FEFF, the byte order mark (EF BB BF). *)
Definition isWhiteSpace3 (c0 c1 c2 : ascii) : bool :=
  let b0 := nat_of_ascii c0 in
  let b1 := nat_of_ascii c1 in
  let b2 := nat_of_ascii c2 in
  (((b0 =? 225) && (b1 =? 154) && (b2 =? 128)) ||
   ((b0 =? 226) && (b1 =? 128) &&
    (((128 <=? b2) && (b2 <=? 138)) || (b2 =? 168) || (b2 =? 169) ||
     (b2 =? 175))) ||
   ((b0 =? 226) && (b1 =? 129) && (b2 =? 159)) ||
   ((b0 =? 227) && (b1 =? 128) && (b2 =? 128)) ||
   ((b0 =? 239) && (b1 =? 187) && (b2 =? 191)))%nat.

Fixpoint trimStart (s : string) : string :=
  match s with
  | EmptyString => EmptyString
  | String c0 rest0 =>
      if isWhiteSpace c0 then trimStart rest0
      else
        match rest0 with
        | EmptyString => s
        | String c1 rest1 =>
            if isWhiteSpace2 c0 c1 then trimStart rest1
            else
              match rest1 with
              | EmptyString => s
              | String c2 rest2 =>
                  if isWhiteSpace3 c0 c1 c2 then trimStart rest2 else s
              end
        end
  end.

(** What is left of [s] when the white space it ends with is cut off: the
    bytes up to the first position from which there is white space only. *)
Fixpoint trimEnd (s : string) : string :=
  match s with
  | EmptyString => EmptyString
  | String c rest =>
      match trimStart s with
      | EmptyString => EmptyString
      | _ => String c (trimEnd rest)
      end
  end.

Definition trim (s : string) : string := trimEnd (trimStart s).

(** [buf.toString('hex')]: two lower-case digits per byte. *)
Definition hexDigit (n : N) : ascii :=
  match n with
  | 0%N => "0" | 1%N => "1" | 2%N => "2" | 3%N => "3"
  | 4%N => "4" | 5%N => "5" | 6%N => "6" | 7%N => "7"
  | 8%N => "8" | 9%N => "9" | 10%N => "a" | 11%N => "b"
  | 12%N => "c" | 13%N => "d" | 14%N => "e" | _ => "f"
  end%char.

Definition hexOfByte (b : Byte.byte) : string :=
  let n := Byte.to_N b in
  String (hexDigit (n / 16)) (String (hexDigit (n mod 16)) EmptyString).

Fixpoint toStringHex (buf : list Byte.byte) : string :=
  match buf with
  | [] => EmptyString
  | b :: rest => hexOfByte b +++ toStringHex rest
  end.

(** Reading a hex string back, to tell what [toStringHex] keeps. *)
Definition isLowerHex (c : ascii) : bool :=
  match c with
  | "0" | "1" | "2" | "3" | "4" | "5" | "6" | "7" | "8" | "9"
  | "a" | "b" | "c" | "d" | "e" | "f" => true
  | _ => false
  end%char.

Definition unhexDigit (c : ascii) : N :=
  match c with
  | "0" => 0 | "1" => 1 | "2" => 2 | "3" => 3 | "4" => 4
  | "5" => 5 | "6" => 6 | "7" => 7 | "8" => 8 | "9" => 9
  | "a" => 10 | "b" => 11 | "c" => 12 | "d" => 13 | "e" => 14
  | _ => 15
  end%char%N.

Definition unhexByte (hi lo : ascii) : option Byte.byte :=
  Byte.of_N (16 * unhexDigit hi + unhexDigit lo).

(** ** The shell of a remote host

    The shell that runs a command on host A is not part of the script.
    What is modelled of POSIX sh is what the write-config command relies
    on: how a command line is cut into words and operators, the quotes
    being removed; the builtin [echo]; and the redirection of what a
    command prints.  A command line outside this fragment (an expansion, a
    control operator, a command other than [echo]) is [NotModelled]. *)

Inductive Redirect : Type := Truncate | Append.

Inductive Token : Type :=
| Word (text : string)
| Operator (how : Redirect)
| Newline.

Inductive Quoting : Type := Unquoted | DoubleQuoted | SingleQuoted.

(** What the shell reads from some point of a command line on: the rest of
    the word that point is in (empty when it is in none) and the tokens
    after it; or the end of the line inside a quote; or a character that
    is outside the fragment. *)
Inductive Lexed : Type :=
| Read (word : string) (after : list Token)
| OpenQuote
| Unsupported.

Definition isBlankChar (c : ascii) : bool :=
  match c with
  | " " | "009" => true
  | _ => false
  end%char.

(** The characters taken as they are outside quotes: letters, digits and
    a few marks.  Everything else that is not handled by [lex] could be an
    operator, an expansion, a pattern or a comment. *)
Definition isWordChar (c : ascii) : bool :=
  let n := nat_of_ascii c in
  (((48 <=? n) && (n <=? 57)) || ((65 <=? n) && (n <=? 90)) ||
   ((97 <=? n) && (n <=? 122)))%nat ||
  match c with
  | "-" | "." | "/" | ":" | "_" | "=" => true
  | _ => false
  end%char.

(** Inside double quotes the dollar sign, the backquote and the backslash
    keep their meaning: they start an expansion or an escape. *)
Definition isExpansionChar (c : ascii) : bool :=
  match c with
  | "$" | "`" | "\" => true
  | _ => false
  end%char.

(** The word goes on, with [c] if there is one (a quote adds nothing). *)
Definition more (inWord : bool) (c : option ascii) (r : Lexed) : Lexed :=
  match r with
  | Read w ts =>
      let w' := match c with Some a => String a w | None => w end in
      if inWord then Read w' ts else Read EmptyString (Word w' :: ts)
  | _ => r
  end.

(** The word, if the shell is in one, ends here; [t] follows. *)
Definition next (t : option Token) (r : Lexed) : Lexed :=
  match r with
  | Read _ ts =>
      Read EmptyString (match t with Some t => t :: ts | None => ts end)
  | _ => r
  end.

Fixpoint lex (input : list ascii) (q : Quoting) (inWord : bool) : Lexed :=
  match input with
  | [] =>
      match q with
      | Unquoted => Read EmptyString []
      | _ => OpenQuote
      end
  | c :: rest =>
      match q with
      | Unquoted =>
          if isBlankChar c then next None (lex rest Unquoted false)
          else if Ascii.eqb c "010" then
            next (Some Newline) (lex rest Unquoted false)
          else if Ascii.eqb c "034" then
            more inWord None (lex rest DoubleQuoted true)
          else if Ascii.eqb c "'" then
            more inWord None (lex rest SingleQuoted true)
          else if Ascii.eqb c ">" then
            if inWord then Unsupported
            else
              match rest with
              | ">" :: rest' =>
                  next (Some (Operator Append)) (lex rest' Unquoted false)
              | _ => next (Some (Operator Truncate)) (lex rest Unquoted false)
              end
          else if isWordChar c then
            more inWord (Some c) (lex rest Unquoted true)
          else Unsupported
      | DoubleQuoted =>
          if Ascii.eqb c "034" then lex rest Unquoted true
          else if isExpansionChar c then Unsupported
          else more true (Some c) (lex rest DoubleQuoted true)
      | SingleQuoted =>
          if Ascii.eqb c "'" then lex rest Unquoted true
          else if Ascii.eqb c "\" then Unsupported
          else more true (Some c) (lex rest SingleQuoted true)
      end
  end%char.

(** The arguments of a simple command that ends with one redirection. *)
Fixpoint redirected (ts : list Token)
  : option (list string * Redirect * string) :=
  match ts with
  | Word w :: rest =>
      match redirected rest with
      | Some (args, how, file) => Some (w :: args, how, file)
      | None => None
      end
  | Operator how :: rest =>
      match rest with
      | [Word file] => Some ([], how, file)
      | _ => None
      end
  | _ => None
  end.

(** [echo] prints its arguments with a space between them and a line break
    after them.  Its options are not modelled, nor the backslash sequences
    that some shells have it interpret: [lex] lets no backslash through. *)
Definition echo (args : list string) : option string :=
  match args with
  | String c _ :: _ =>
      if Ascii.eqb c "-" then None
      else Some (String.concat " " args +++ nl)
  | _ => Some (String.concat " " args +++ nl)
  end.

(** What running a command line comes to: the text it prints into a file,
    or a syntax error because a quote is left open at the end of the line
    (what follows the last quote is then never read as a redirection), or
    something the model does not cover. *)
Inductive Ran : Type :=
| Redirected (how : Redirect) (file printed : string)
| SyntaxError
| NotModelled.

Definition sh (command : string) : Ran :=
  match lex (list_ascii_of_string command) Unquoted false with
  | Read _ (Word name :: ts) =>
      if String.eqb name "echo" then
        match redirected ts with
        | Some (args, how, file) =>
            match echo args with
            | Some printed => Redirected how file printed
            | None => NotModelled
            end
        | None => NotModelled
        end
      else NotModelled
  | Read _ _ => NotModelled
  | OpenQuote => SyntaxError
  | Unsupported => NotModelled
  end.




(** A text that double quotes keep as it is. *)
Definition isLiteralInQuotes (c : ascii) : bool :=
  negb (Ascii.eqb c "034" || isExpansionChar c).

Definition literalInQuotes (s : string) : bool :=
  forallb isLiteralInQuotes (list_ascii_of_string s).

(** A text with its double quotes taken out. *)
Definition withoutQuotes (s : string) : string :=
  string_of_list_ascii
    (filter (fun c => negb (Ascii.eqb c "034")) (list_ascii_of_string s)).

(** ** The world outside the script *)

(** The calls that leave the process: the three docker-machine operations
    of the [docker-machine] package and [child_process.spawnSync]. *)
Inductive Call : Type :=
| MachineCreate (name driver accessToken : string)
| MachineInspect (name : string)
| MachineSsh (name command : string)
| SpawnSync (command : string).

(** What the callback of a call receives: [(null, result)], or [(err)]
    with no result.  For [inspect] the result stands for its
    [driver.ipAddress]. *)
Inductive Reply : Type :=
| Ok (result : string)
| Failed (err : Error).

Definition Entry : Type := (Call * Reply)%type.

(** What the operator sees. *)
Inductive Output : Type :=
| ConsoleClear
| ConsoleLog (text : string)
| ConsoleLogMagenta (text : string)
| ConsoleTable (rows : list (list string))
| Question (prompt : string)
| SpinnerStart (text : string)
| SpinnerSucceed (text : string)
| SpinnerFail (text : string).

(** The mutable part: the calls issued so far, in the order in which they
    were issued and with the reply each one got, the console, and how many
    bytes have been drawn from the random source. *)
Record World : Type := mkWorld {
  calls : list Entry;
  console : list Output;
  drawn : nat
}.

Definition initial : World := mkWorld [] [] 0.

Definition record (e : Entry) (w : World) : World :=
  mkWorld (calls w ++ [e]) (console w) (drawn w).

Definition display (o : Output) (w : World) : World :=
  mkWorld (calls w) (console w ++ [o]) (drawn w).

(** The environment of one run: how the provider and the hosts answer a
    call given everything issued before it, what the operator types at a
    prompt, and the byte stream behind [crypto.randomBytes]. *)
Record Env : Type := mkEnv {
  respond : list Entry -> Call -> Reply;
  operator : string -> string;
  entropy : nat -> Byte.byte
}.

(** The [size] bytes of the random source that follow the first [from]. *)
Definition bytesFrom (E : Env) (from size : nat) : list Byte.byte :=
  map (fun i => entropy E (from + i)) (seq 0 size).

Definition MOTHERSHIP_NODE_NAME : string := "mothership-paas".
Definition SWARM_MANAGER_NODE_NAME : string := "mothership-swarm".

Definition MOTHERSHIP_LOGO : string :=
  "                   `:shmNmmmdhs:`" +++ nl +++
  "                 `sNNs:.    .:sNNo`" +++ nl +++
  "                :mMh` .:.  .-. `yMm-" +++ nl +++
  "               .NMN..:NMN::NMN:..NMN." +++ nl +++
  "          `....sNNmdddmmmddmmmdddmNNs....`" +++ nl +++
  "         +yyyyyyyyyyhhyhhyyhhyhhyhyyyyyyyy/" +++ nl +++
  "         `+dMmNMmNMNNMNNMNNMmNMNNMmmMNmMd+`" +++ nl +++
  "           `/ssyyssyyhhyhyyhyhhyyssyyss/`" +++ nl +++
  "                   `+hmNNNNNNmh+`" +++ nl +++
  "  __  __  ___ _____ _  _ ___ ___  ___ _  _ ___ ___" +++ nl +++
  " |  \/  |/ _ \_   _| || | __| _ \/ __| || |_ _| _ \" +++ nl +++
  " | |\/| | (_) || | | __ | _||   /\__ \ __ || ||  _/" +++ nl +++
  " |_|  |_|\___/ |_| |_||_|___|_|_\|___/_||_|___|_|".

(** The template literal of [dockerComposeContent], cut at its
    substitutions. *)
Definition composeHead : string :=
  "version: '3'" +++ nl +++ nl +++
  "services:" +++ nl +++
  "  web:" +++ nl +++
  "    image: mothershippaas/mothership:latest" +++ nl +++
  "    volumes:" +++ nl +++
  "      - /var/run/docker.sock:/var/run/docker.sock" +++ nl +++
  "      - /root/.docker:/root/.docker" +++ nl +++
  "    environment:" +++ nl +++
  "      - NODE_ENV=production" +++ nl +++
  "      - SESSION_SECRET=".

Definition composeAfterSecret : string :=
  nl +++
  "      - REDIS_HOST=redis" +++ nl +++
  "      - DB_USERNAME=postgres" +++ nl +++
  "      - DB_NAME=paas_development" +++ nl +++
  "      - DB_HOST=database" +++ nl +++
  "      - DB_PASSWORD=password" +++ nl +++
  "      - MOTHERSHIP_DOMAIN=".

Definition composeAfterDomain : string :=
  nl +++ "      - MOTHERSHIP_MANAGER_NAME=".

Definition composeAfterName : string :=
  nl +++ "      - MOTHERSHIP_MANAGER_IP=".

Definition composeTail : string :=
  nl +++
  "    ports:" +++ nl +++
  "      - " +++ dq +++ "443:443" +++ dq +++ nl +++
  "      - " +++ dq +++ "80:80" +++ dq +++ nl +++
  "      - " +++ dq +++ "3000:3000" +++ dq +++ nl +++ nl +++
  "  database:" +++ nl +++
  "    image: postgres" +++ nl +++
  "    environment:" +++ nl +++
  "      - POSTGRES_DB=paas_development" +++ nl +++
  "      - POSTGRES_PASSWORD=password" +++ nl +++
  "    volumes:" +++ nl +++
  "      - db_data:/var/lib/postgresql/data" +++ nl +++ nl +++
  "  redis:" +++ nl +++
  "    image: redis" +++ nl +++ nl +++
  "volumes:" +++ nl +++
  "  db_data:".

Definition composeTemplate (sessionSecret domain swarmManagerIp : string)
  : string :=
  composeHead +++ sessionSecret +++
  composeAfterSecret +++ domain +++
  composeAfterDomain +++ SWARM_MANAGER_NODE_NAME +++
  composeAfterName +++ swarmManagerIp +++
  composeTail.

(** The command strings of [main]. *)
Definition rmCommand (name : string) : string :=
  "docker-machine rm -y " +++ name.

Definition installComposeCommand : string :=
  "sudo curl -L " +++ dq +++
  "https://github.com/docker/compose/releases/download/1.25.0/docker-compose-$(uname -s)-$(uname -m)"
  +++ dq +++ " -o /usr/local/bin/docker-compose".

Definition chmodComposeCommand : string :=
  "sudo chmod +x /usr/local/bin/docker-compose".

Definition installMachineCommand : string :=
  "base=https://github.com/docker/machine/releases/download/v0.16.2 &&"
  +++ nl +++
  "  curl -L $base/docker-machine-$(uname -s)-$(uname -m) >/tmp/docker-machine &&"
  +++ nl +++
  "  sudo mv /tmp/docker-machine /usr/local/bin/docker-machine &&"
  +++ nl +++
  "  chmod +x /usr/local/bin/docker-machine".

Definition createSwarmCommand (accessToken : string) : string :=
  "docker-machine create --driver digitalocean --digitalocean-access-token "
  +++ accessToken +++ " " +++ SWARM_MANAGER_NODE_NAME.

Definition ipCommand : string :=
  "docker-machine ip " +++ SWARM_MANAGER_NODE_NAME.

Definition onSwarm (command : string) : string :=
  "eval $(docker-machine env " +++ SWARM_MANAGER_NODE_NAME +++ ");" +++ command.

Definition swarmInitCommand (swarmManagerIp : string) : string :=
  onSwarm ("docker swarm init --advertise-addr " +++ swarmManagerIp).

Definition networkCommand : string :=
  onSwarm "docker network create --driver overlay proxy".

Definition listenerCommand : string :=
  onSwarm ("docker service create --name swarm-listener --network proxy --mount "
  +++ dq +++ "type=bind,source=/var/run/docker.sock,target=/var/run/docker.sock"
  +++ dq +++
  " -e DF_NOTIFY_CREATE_SERVICE_URL=http://proxy:8080/v1/docker-flow-proxy/reconfigure"
  +++
  " -e DF_NOTIFY_REMOVE_SERVICE_URL=http://proxy:8080/v1/docker-flow-proxy/remove"
  +++ " --constraint 'node.role==manager' dockerflow/docker-flow-swarm-listener").

Definition proxyCommand : string :=
  onSwarm ("docker service create --name proxy -p 80:80 -p 443:443 --network proxy"
  +++ " -e LISTENER_ADDRESS=swarm-listener dockerflow/docker-flow-proxy").

Definition writeComposeCommand (content : string) : string :=
  "echo " +++ dq +++ content +++ dq +++ " >> docker-compose.yml".

Definition composeUpCommand : string := "docker-compose up -d".

Definition migrateCommand : string :=
  "docker-compose run web ./node_modules/.bin/sequelize db:migrate".

Definition seedCommand : string :=
  "docker-compose run web ./node_modules/.bin/sequelize db:seed:all".

(** ** The helpers of the script *)

Section Workflow.
Variable E : Env.

(** One call leaving the process: the environment answers from what was
    issued before, and the call is appended to the record. *)
Definition issue (c : Call) (w : World) : Reply * World :=
  let r := respond E (calls w) c in
  (r, record (c, r) w).

(** [new Promise((resolve, reject) => call(..., (err, result) => ...))]. *)
Definition external (c : Call) : Async World string :=
  fun w =>
    match issue c w with
    | (Ok result, w1) => (Fulfilled result, w1)
    | (Failed err, w1) => (Rejected err, w1)
    end.

Definition createDockerMachine (name accessToken : string) : Async World unit :=
  (_ <- external (MachineCreate name "digitalocean" accessToken);; ret tt)%async.

(** [if (err) reject(err); resolve(result.driver.ipAddress);]: nothing
    returns after [reject], and the package calls back with the error alone,
    so that reading [result.driver] throws a TypeError inside the callback
    of [inspect], where no promise catches it. *)
Definition getMachineIp (name : string) : Async World string :=
  fun w =>
    match issue (MachineInspect name) w with
    | (Ok ipAddress, w1) => (Fulfilled ipAddress, w1)
    | (Failed err, w1) => (Crashed, w1)
    end.

(** [new DockerMachine(name)] is the handle of the machine called [name]. *)
Definition DockerMachine (name : string) : string := name.

Definition sshMachine (machine command : string) : Async World string :=
  external (MachineSsh machine command).

(** [spawnSync(command, [], { shell: true })] returns an object describing
    how the command ended; it does not throw when the command fails. *)
Definition spawnSync (command : string) : Async World Reply :=
  fun w => let (r, w1) := issue (SpawnSync command) w in (Fulfilled r, w1).

Definition emit (o : Output) : Async World unit :=
  fun w => (Fulfilled tt, display o w).

Definition consoleClear : Async World unit := emit ConsoleClear.
Definition consoleLog (text : string) : Async World unit := emit (ConsoleLog text).
Definition consoleLogMagenta (text : string) : Async World unit :=
  emit (ConsoleLogMagenta text).
Definition consoleTable (rows : list (list string)) : Async World unit :=
  emit (ConsoleTable rows).

(** An [ora] spinner is known by its text. *)
Definition ora (text : string) : string := text.

Definition start (spinner : string) : Async World string :=
  (emit (SpinnerStart spinner);; ret spinner)%async.
Definition succeed (spinner : string) : Async World unit :=
  emit (SpinnerSucceed spinner).
Definition fail (spinner : string) : Async World unit :=
  emit (SpinnerFail spinner).

Definition promptForInput (prompt : string) : Async World string :=
  (emit (Question (prompt +++ nl +++ "> "));; ret (operator E prompt))%async.

Definition processExit {A} : Async World A := fun w => (Exited, w).

(** [crypto.randomBytes(size)]: the next [size] bytes of the source. *)
Definition randomBytes (size : nat) : Async World (list Byte.byte) :=
  fun w =>
    (Fulfilled (bytesFrom E (drawn w) size),
     mkWorld (calls w) (console w) (drawn w + size)).

Definition dockerComposeContent (domain swarmManagerIp : string)
  : Async World string :=
  (buf <- randomBytes 256;;
   let sessionSecret := toStringHex buf in
   ret (composeTemplate sessionSecret domain swarmManagerIp))%async.

(** The failure callback of the first [retryPromiseIfNeeded] in [main]. *)
Definition removeMothershipNode (err : Error) : Async World unit :=
  (_ <- spawnSync (rmCommand MOTHERSHIP_NODE_NAME);; ret tt)%async.

(** The failure callback of the second one, an [async] arrow function that
    the retry policy calls without awaiting it. *)
Definition removeSwarmManager (mothershipNode : string) (err : Error)
  : Async World unit :=
  detached
    (catch
       (_ <- sshMachine mothershipNode (rmCommand SWARM_MANAGER_NODE_NAME);;
        ret tt)%async
       (fun _ => ret tt)).

Definition createFailedMessage : string :=
  "Could not successfully create node on 5 attempts.".

(** ** main *)

Definition main : Async World unit :=
  (consoleClear;;
   consoleLog EmptyString;;
   consoleLogMagenta MOTHERSHIP_LOGO;;
   consoleLog EmptyString;;
   consoleLogMagenta "Automated Setup";;
   consoleLog EmptyString;;
   accessToken <- promptForInput "Please enter your DigitalOcean access token:";;
   domain <- promptForInput
     "Please enter the domain you'd like your server to run on:";;
   consoleLog EmptyString;;
   consoleLog "MOTHERSHIP SETUP";;
   loading <- start
     (ora "Creating droplet for Mothership (this may take a few moments)...");;
   catch
     (retryPromiseIfNeeded
        (createDockerMachine MOTHERSHIP_NODE_NAME accessToken)
        (Some removeMothershipNode) None;;
      succeed loading)
     (fun err =>
        fail loading;;
        consoleLog createFailedMessage;;
        processExit);;
   let loading := ora "Getting IP address of Mothership node..." in
   mothershipIp <- getMachineIp MOTHERSHIP_NODE_NAME;;
   succeed loading;;
   loading <- start (ora "Logging into Mothership droplet...");;
   let mothershipNode := DockerMachine MOTHERSHIP_NODE_NAME in
   succeed loading;;
   loading <- start (ora "Installing docker-compose...");;
   _ <- sshMachine mothershipNode installComposeCommand;;
   _ <- sshMachine mothershipNode chmodComposeCommand;;
   succeed loading;;
   loading <- start (ora "Installing docker-machine...");;
   _ <- sshMachine mothershipNode installMachineCommand;;
   succeed loading;;
   consoleLog EmptyString;;
   consoleLog "MOTHERSHIP SWARM SETUP";;
   loading <- start (ora "Creating droplet for Mothership swarm manager...");;
   catch
     (retryPromiseIfNeeded
        (_ <- sshMachine mothershipNode (createSwarmCommand accessToken);;
         ret tt)
        (Some (removeSwarmManager mothershipNode)) None;;
      succeed loading)
     (fun err =>
        fail loading;;
        consoleLog createFailedMessage;;
        processExit);;
   loading <- start (ora "Getting IP address...");;
   swarmManagerIp <- sshMachine mothershipNode ipCommand;;
   let swarmManagerIp := trim swarmManagerIp in
   succeed loading;;
   loading <- start (ora "Initializing swarm...");;
   _ <- sshMachine mothershipNode (swarmInitCommand swarmManagerIp);;
   succeed loading;;
   loading <- start (ora "Creating overlay network...");;
   _ <- sshMachine mothershipNode networkCommand;;
   succeed loading;;
   loading <- start (ora "Creating docker-flow-swarm-listener service...");;
   _ <- sshMachine mothershipNode listenerCommand;;
   succeed loading;;
   loading <- start (ora "Creating docker-flow-proxy service...");;
   _ <- sshMachine mothershipNode proxyCommand;;
   succeed loading;;
   consoleLog EmptyString;;
   consoleLog "MOTHERSHIP CONFIG AND START";;
   loading <- start (ora "Creating docker-compose.yml for Mothership...");;
   content <- dockerComposeContent domain swarmManagerIp;;
   _ <- sshMachine mothershipNode (writeComposeCommand content);;
   succeed loading;;
   loading <- start (ora "Starting Mothership server (Node.js + Postgres)...");;
   _ <- sshMachine mothershipNode composeUpCommand;;
   succeed loading;;
   loading <- start (ora "Running migrations for Mothership database...");;
   _ <- sshMachine mothershipNode migrateCommand;;
   succeed loading;;
   let loading := ora "Seeding Mothership's database..." in
   _ <- sshMachine mothershipNode seedCommand;;
   succeed loading;;
   consoleLog EmptyString;;
   consoleLog "~~~~~~~~~~~~~~~~~~~~~~~~~~~~~~~~~~~~";;
   consoleLog "~~ Mothership installer complete! ~~";;
   consoleLog "~~~~~~~~~~~~~~~~~~~~~~~~~~~~~~~~~~~~";;
   consoleLog EmptyString;;
   consoleLog "Note: To finish configuration you'll need to add the";;
   consoleLog "following resource records to your DNS provider:";;
   let output :=
     [ ["Name"; "Type"; "IP Address"];
       ["@"; "A"; swarmManagerIp];
       ["*"; "A"; swarmManagerIp];
       ["mothership"; "A"; mothershipIp] ] in
   consoleTable output;;
   consoleLog
     ("After adding these resource records visit Mothership online: http://mothership."
      +++ domain);;
   processExit)%async.

End Workflow.

(** ** Reading the record of calls *)

Definition isOk (r : Reply) : bool :=
  match r with Ok _ => true | Failed _ => false end.

Definition fulfilled {A} (o : Outcome A) : bool :=
  match o with Fulfilled _ => true | _ => false end.

(** [needle] occurs in [hay]. *)
Fixpoint contains (needle hay : string) : bool :=
  match hay with
  | EmptyString => prefix needle EmptyString
  | String _ rest => prefix needle hay || contains needle rest
  end.

(** A call that touches host B: a provider call on the machine of that
    name, or a command line that names it. *)
Definition touchesSwarmManager (c : Call) : bool :=
  match c with
  | MachineCreate name _ _ => String.eqb name SWARM_MANAGER_NODE_NAME
  | MachineInspect name => String.eqb name SWARM_MANAGER_NODE_NAME
  | MachineSsh name command =>
      String.eqb name SWARM_MANAGER_NODE_NAME ||
      contains SWARM_MANAGER_NODE_NAME command
  | SpawnSync command => contains SWARM_MANAGER_NODE_NAME command
  end.

(** A command run in a session on host A. *)
Definition onMothership (c : Call) : bool :=
  match c with
  | MachineSsh name _ => String.eqb name MOTHERSHIP_NODE_NAME
  | _ => false
  end.

(** A direct provider call or local command that concerns host A only,
    or a command run in a session on host A. *)
Definition throughMothership (c : Call) : bool :=
  match c with
  | MachineCreate name _ _ => String.eqb name MOTHERSHIP_NODE_NAME
  | MachineInspect name => String.eqb name MOTHERSHIP_NODE_NAME
  | MachineSsh name _ => String.eqb name MOTHERSHIP_NODE_NAME
  | SpawnSync command => String.eqb command (rmCommand MOTHERSHIP_NODE_NAME)
  end.

Inductive Host : Type := HostA | HostB.

Definition sameHost (a b : option Host) : bool :=
  match a, b with
  | Some HostA, Some HostA => true
  | Some HostB, Some HostB => true
  | _, _ => false
  end.

(** The call that creates a host, and the call that removes it again. *)
Definition creationOf (accessToken : string) (c : Call) : option Host :=
  match c with
  | MachineCreate name _ _ =>
      if String.eqb name MOTHERSHIP_NODE_NAME then Some HostA else None
  | MachineSsh name command =>
      if String.eqb name MOTHERSHIP_NODE_NAME &&
         String.eqb command (createSwarmCommand accessToken)
      then Some HostB else None
  | _ => None
  end.

Definition compensationOf (c : Call) : option Host :=
  match c with
  | SpawnSync command =>
      if String.eqb command (rmCommand MOTHERSHIP_NODE_NAME)
      then Some HostA else None
  | MachineSsh name command =>
      if String.eqb name MOTHERSHIP_NODE_NAME &&
         String.eqb command (rmCommand SWARM_MANAGER_NODE_NAME)
      then Some HostB else None
  | _ => None
  end.

(** [next] may be issued right after [e]: a removal is followed by another
    attempt to create the same host; any other call is followed by
    something only if it succeeded, unless it is a failed attempt to create
    a host, which is followed by the removal of that host. *)
Definition follows (accessToken : string) (e next : Entry) : bool :=
  match compensationOf (fst e) with
  | Some h => sameHost (creationOf accessToken (fst next)) (Some h)
  | None =>
      isOk (snd e) ||
      sameHost (creationOf accessToken (fst e)) (compensationOf (fst next))
  end.

Fixpoint ordered (accessToken : string) (log : list Entry) : bool :=
  match log with
  | e :: rest =>
      match rest with
      | next :: _ => follows accessToken e next && ordered accessToken rest
      | [] => true
      end
  | [] => true
  end.

(** The last call of [log], if any, succeeded and is not a removal. *)
Definition closed (log : list Entry) : bool :=
  match rev log with
  | e :: _ =>
      match compensationOf (fst e) with
      | None => isOk (snd e)
      | Some _ => false
      end
  | [] => true
  end.

(** The record of a creation under retry: failed attempts of [c], each
    followed by the removal [cc], then a last attempt of [c]; [ok] tells
    whether that one succeeded. *)
Fixpoint retried (c cc : Call) (log : list Entry) (ok : bool) : Prop :=
  match log with
  | (c1, r1) :: rest =>
      c1 = c /\
      match rest with
      | [] => isOk r1 = ok
      | (c2, _) :: rest' =>
          isOk r1 = false /\ c2 = cc /\ retried c cc rest' ok
      end
  | [] => False
  end.

(** The calls of [main] outside the two retried creations. *)
Inductive StepCall : Call -> Prop :=
| StepInspect : StepCall (MachineInspect MOTHERSHIP_NODE_NAME)
| StepInstallCompose :
    StepCall (MachineSsh MOTHERSHIP_NODE_NAME installComposeCommand)
| StepChmodCompose :
    StepCall (MachineSsh MOTHERSHIP_NODE_NAME chmodComposeCommand)
| StepInstallMachine :
    StepCall (MachineSsh MOTHERSHIP_NODE_NAME installMachineCommand)
| StepIp : StepCall (MachineSsh MOTHERSHIP_NODE_NAME ipCommand)
| StepSwarmInit ip :
    StepCall (MachineSsh MOTHERSHIP_NODE_NAME (swarmInitCommand ip))
| StepNetwork : StepCall (MachineSsh MOTHERSHIP_NODE_NAME networkCommand)
| StepListener : StepCall (MachineSsh MOTHERSHIP_NODE_NAME listenerCommand)
| StepProxy : StepCall (MachineSsh MOTHERSHIP_NODE_NAME proxyCommand)
| StepWriteCompose content :
    StepCall (MachineSsh MOTHERSHIP_NODE_NAME (writeComposeCommand content))
| StepComposeUp : StepCall (MachineSsh MOTHERSHIP_NODE_NAME composeUpCommand)
| StepMigrate : StepCall (MachineSsh MOTHERSHIP_NODE_NAME migrateCommand)
| StepSeed : StepCall (MachineSsh MOTHERSHIP_NODE_NAME seedCommand).

(** The order of calls the workflow is meant to produce when nothing
    fails: create A, address of A, tooling on A, create B through A,
    address of B through A, cluster, network, listener, proxy, descriptor,
    stack, migration, seed. *)
Definition expectedCalls (accessToken ip content : string) : list Call :=
  [ MachineCreate MOTHERSHIP_NODE_NAME "digitalocean" accessToken;
    MachineInspect MOTHERSHIP_NODE_NAME;
    MachineSsh MOTHERSHIP_NODE_NAME installComposeCommand;
    MachineSsh MOTHERSHIP_NODE_NAME chmodComposeCommand;
    MachineSsh MOTHERSHIP_NODE_NAME installMachineCommand;
    MachineSsh MOTHERSHIP_NODE_NAME (createSwarmCommand accessToken);
    MachineSsh MOTHERSHIP_NODE_NAME ipCommand;
    MachineSsh MOTHERSHIP_NODE_NAME (swarmInitCommand ip);
    MachineSsh MOTHERSHIP_NODE_NAME networkCommand;
    MachineSsh MOTHERSHIP_NODE_NAME listenerCommand;
    MachineSsh MOTHERSHIP_NODE_NAME proxyCommand;
    MachineSsh MOTHERSHIP_NODE_NAME (writeComposeCommand content);
    MachineSsh MOTHERSHIP_NODE_NAME composeUpCommand;
    MachineSsh MOTHERSHIP_NODE_NAME migrateCommand;
    MachineSsh MOTHERSHIP_NODE_NAME seedCommand ].

(** What the console shows up to the first spinner. *)
Definition bannerShown : list Output :=
  [ConsoleClear; ConsoleLog EmptyString; ConsoleLogMagenta MOTHERSHIP_LOGO;
   ConsoleLog EmptyString; ConsoleLogMagenta "Automated Setup";
   ConsoleLog EmptyString;
   Question ("Please enter your DigitalOcean access token:" +++ nl +++ "> ");
   Question ("Please enter the domain you'd like your server to run on:"
             +++ nl +++ "> ");
   ConsoleLog EmptyString; ConsoleLog "MOTHERSHIP SETUP";
   SpinnerStart
     "Creating droplet for Mothership (this may take a few moments)..."].

(** The access token and the domain the operator enters. *)
Definition enteredToken (E : Env) : string :=
  operator E "Please enter your DigitalOcean access token:".

Definition enteredDomain (E : Env) : string :=
  operator E "Please enter the domain you'd like your server to run on:".

(** A computation adds calls to the record and never rewrites it; [R]
    relates the way it ended (fulfilled or not) to the calls it added. *)
Definition logs (R : bool -> list Entry -> Prop) {A} (m : Async World A)
  : Prop :=
  forall w, exists l,
    calls (snd (m w)) = calls w ++ l /\ R (fulfilled (fst (m w))) l.

(** ** Environments used as test doubles *)

Definition zeroEntropy : nat -> Byte.byte := fun _ => Byte.x00.

Definition noOperator : string -> string := fun _ => EmptyString.

(** Every call succeeds; the address of host B comes back with the line
    break of the command's output. *)
Definition friendlyEnv : Env :=
  mkEnv
    (fun _ c =>
       match c with
       | MachineInspect _ => Ok "203.0.113.10"
       | MachineSsh _ command =>
           if String.eqb command ipCommand
           then Ok ("203.0.113.20" +++ nl)
           else Ok EmptyString
       | _ => Ok EmptyString
       end)
    (fun prompt =>
       if String.eqb prompt "Please enter your DigitalOcean access token:"
       then "token" else "example.org")
    zeroEntropy.


(** The creation of host A fails twice and that of host B once before they
    succeed, and every removal fails. *)
Definition attemptsSoFar (c : Call) (h : list Entry) : nat :=
  List.length
    (filter (fun e =>
               match fst e, c with
               | MachineCreate _ _ _, MachineCreate _ _ _ => true
               | MachineSsh _ a, MachineSsh _ b => String.eqb a b
               | _, _ => false
               end) h).

Definition flakyEnv : Env :=
  mkEnv
    (fun h c =>
       match c with
       | MachineCreate _ _ _ =>
           if Nat.ltb (attemptsSoFar c h) 2
           then Failed "timeout" else Ok EmptyString
       | MachineInspect _ => Ok "203.0.113.10"
       | MachineSsh _ command =>
           if String.eqb command (createSwarmCommand "token")
           then if Nat.ltb (attemptsSoFar c h) 1
                then Failed "timeout" else Ok EmptyString
           else if String.eqb command (rmCommand SWARM_MANAGER_NODE_NAME)
           then Failed "no such host"
           else if String.eqb command ipCommand
           then Ok ("203.0.113.20" +++ nl)
           else Ok EmptyString
       | SpawnSync _ => Failed "exit status 1"
       end)
    (operator friendlyEnv)
    zeroEntropy.

(** Every call fails. *)
Definition hostileEnv : Env :=
  mkEnv (fun _ _ => Failed "unreachable") noOperator zeroEntropy.

(** ** More ways to read a run *)

(** How a computation ended, without the value it returned. *)
Inductive Ending : Type :=
| Returned
| Threw (err : Error)
| Quit
| Stalled
| Died.

Definition ending {A} (o : Outcome A) : Ending :=
  match o with
  | Fulfilled _ => Returned
  | Rejected err => Threw err
  | Exited => Quit
  | Unsettled => Stalled
  | Crashed => Died
  end.

(** Like [logs], with the whole ending in view. *)
Definition ends (R : Ending -> list Entry -> Prop) {A} (m : Async World A)
  : Prop :=
  forall w, exists l,
    calls (snd (m w)) = calls w ++ l /\ R (ending (fst (m w))) l.

(** The calls [main] can issue, given the access token the operator typed:
    the creation of host A and its local removal, the thirteen calls of the
    steps, and the creation and removal of host B through host A. *)
Definition knownCall (accessToken : string) (c : Call) : Prop :=
  c = MachineCreate MOTHERSHIP_NODE_NAME "digitalocean" accessToken \/
  c = SpawnSync (rmCommand MOTHERSHIP_NODE_NAME) \/
  StepCall c \/
  c = MachineSsh MOTHERSHIP_NODE_NAME (createSwarmCommand accessToken) \/
  c = MachineSsh MOTHERSHIP_NODE_NAME (rmCommand SWARM_MANAGER_NODE_NAME).

Definition isSpinnerFail (o : Output) : bool :=
  match o with SpinnerFail _ => true | _ => false end.

(** White space of one byte only. *)
Definition isBlank (s : string) : bool :=
  forallb isWhiteSpace (list_ascii_of_string s).

(** A printable character of ASCII other than the space. *)
Definition isPrintable (c : ascii) : bool :=
  ((33 <=? nat_of_ascii c) && (nat_of_ascii c <=? 126))%nat.

Definition startsPrintable (s : string) : bool :=
  match s with
  | EmptyString => false
  | String c _ => isPrintable c
  end.

Fixpoint endsPrintable (s : string) : bool :=
  match s with
  | EmptyString => false
  | String c EmptyString => isPrintable c
  | String _ rest => endsPrintable rest
  end.

(** Every call succeeds except the download of docker-compose. *)
Definition toolingFailsEnv : Env :=
  mkEnv
    (fun h c =>
       match c with
       | MachineSsh name command =>
           if String.eqb name MOTHERSHIP_NODE_NAME &&
              String.eqb command installComposeCommand
           then Failed "curl: (6) Could not resolve host"
           else respond friendlyEnv h c
       | _ => respond friendlyEnv h c
       end)
    (operator friendlyEnv)
    zeroEntropy.

(** Every call succeeds except the creation of host B. *)
Definition swarmNeverCreatedEnv : Env :=
  mkEnv
    (fun h c =>
       match c with
       | MachineSsh name command =>
           if String.eqb name MOTHERSHIP_NODE_NAME &&
              String.eqb command (createSwarmCommand "token")
           then Failed "Error creating machine"
           else respond friendlyEnv h c
       | _ => respond friendlyEnv h c
       end)
    (operator friendlyEnv)
    zeroEntropy.

(** Every call succeeds, and the address of host B comes back as an empty
    line. *)
Definition blankAddressEnv : Env :=
  mkEnv
    (fun h c =>
       match c with
       | MachineSsh _ command =>
           if String.eqb command ipCommand then Ok nl
           else respond friendlyEnv h c
       | _ => respond friendlyEnv h c
       end)
    (operator friendlyEnv)
    zeroEntropy.

(** The end of the descriptor with the port mappings not quoted. *)
Definition composeTailUnquoted : string :=
  nl +++
  "    ports:" +++ nl +++
  "      - 443:443" +++ nl +++
  "      - 80:80" +++ nl +++
  "      - 3000:3000" +++ nl +++ nl +++
  "  database:" +++ nl +++
  "    image: postgres" +++ nl +++
  "    environment:" +++ nl +++
  "      - POSTGRES_DB=paas_development" +++ nl +++
  "      - POSTGRES_PASSWORD=password" +++ nl +++
  "    volumes:" +++ nl +++
  "      - db_data:/var/lib/postgresql/data" +++ nl +++ nl +++
  "  redis:" +++ nl +++
  "    image: redis" +++ nl +++ nl +++
  "volumes:" +++ nl +++
  "  db_data:".

(** Host A is created, and its inspection fails. *)
Definition inspectFailsEnv : Env :=
  mkEnv
    (fun h c =>
       match c with
       | MachineInspect _ => Failed "Host does not exist"
       | _ => respond friendlyEnv h c
       end)
    (operator friendlyEnv)
    zeroEntropy.

(** An action that is rejected until its invocation number [stallAt], where
    the promise it returns never settles. *)
Definition stalling (stallAt : nat) : Async nat string :=
  fun invoked =>
    if Nat.ltb (invoked + 1) stallAt
    then (Rejected "down", invoked + 1)
    else (Unsettled, invoked + 1).

Definition firstChar (s : string) : option ascii :=
  match s with
  | EmptyString => None
  | String c _ => Some c
  end.

(** The call issued last, if any. *)
Definition lastEntry (l : list Entry) : option Entry := hd_error (rev l).

(** * Properties *)

Unset Implicit Arguments.

Section RetryFacts.
Context {S T : Type}.
Variable fn : Async S T.
Variable failedAttemptCb : option (Error -> Async S unit).
Variable maxTries : Z.

Lemma attemptPromise_eq (attempt : Z) (s : S) :
  attemptPromise fn failedAttemptCb maxTries attempt s =
  match fn s with
  | (Fulfilled result, s1) => (Fulfilled result, s1)
  | (Rejected err, s1) =>
      if (attempt >=? maxTries)%Z then (Rejected err, s1)
      else match invokeCb failedAttemptCb err s1 with
           | (Fulfilled _, s2) =>
               attemptPromise fn failedAttemptCb maxTries (attempt + 1) s2
           | (Rejected _, s2) => (Unsettled, s2)
           | (Exited, s2) => (Exited, s2)
           | (Unsettled, s2) => (Unsettled, s2)
           | (Crashed, s2) => (Crashed, s2)
           end
  | (Exited, s1) => (Exited, s1)
  | (Unsettled, s1) => (Unsettled, s1)
  | (Crashed, s1) => (Crashed, s1)
  end.
Proof.
  simp attemptPromise.
  destruct (fn s) as [[result | err | | | ] s1]; cbn; try reflexivity.
  destruct (Z_ge_lt_dec attempt maxTries) as [Hge | Hlt]; cbn.
  - destruct (Z.geb_spec attempt maxTries); [reflexivity | lia].
  - destruct (Z.geb_spec attempt maxTries); [lia |].
    destruct (invokeCb failedAttemptCb err s1) as [[[] | e2 | | | ] s2];
      reflexivity.
Qed.

End RetryFacts.

(** ** The retry policy *)

Section RetryTraced.
Context {S T : Type}.
Variable fn : Async S T.
Variable cb : Error -> Async S unit.
Variable n : Z.

Lemma attempts_app (tr1 tr2 : list (RetryEvent T)) :
  attempts (tr1 ++ tr2) = attempts tr1 + attempts tr2.
Proof. unfold attempts. rewrite filter_app, length_app. reflexivity. Qed.

Lemma compensations_app (tr1 tr2 : list (RetryEvent T)) :
  compensations (tr1 ++ tr2) = compensations tr1 + compensations tr2.
Proof. unfold compensations. rewrite filter_app, length_app. reflexivity. Qed.

Lemma traced_fn_run (s : S) (tr : list (RetryEvent T)) o s1 :
  fn s = (o, s1) ->
  traced_fn fn (s, tr) = (o, (s1, tr ++ [Attempt o])).
Proof. intros H. unfold traced_fn. cbn [fst snd]. rewrite H. reflexivity. Qed.

Lemma traced_cb_run (err : Error) (s : S) (tr : list (RetryEvent T)) o s1 :
  cb err s = (o, s1) ->
  traced_cb cb err (s, tr) = (o, (s1, tr ++ [Compensation err o])).
Proof. intros H. unfold traced_cb. cbn [fst snd]. rewrite H. reflexivity. Qed.

(** The run of [attemptPromise] on an execution described by [fails_then]. *)
Lemma attemptPromise_fails_then :
  forall failures attempt s tr o s_end,
    fails_then fn (Some cb) failures s o s_end ->
    (0 < failures -> (attempt + Z.of_nat failures <= n)%Z) ->
    (forall err, o = Rejected err -> n <= attempt + Z.of_nat failures)%Z ->
    exists tr',
      attemptPromise (traced_fn fn) (Some (traced_cb cb)) n attempt (s, tr) =
        (o, (s_end, tr ++ tr' ++ [Attempt o])) /\
      attempts tr' = failures /\
      compensations tr' = failures.
Proof.
  induction failures as [| k IH]; intros attempt s tr o s_end Hrun Hle Hge.
  - cbn in Hrun. exists []. repeat split.
    rewrite attemptPromise_eq, (traced_fn_run s tr o s_end Hrun).
    destruct o as [v | err | | |]; try reflexivity.
    specialize (Hge err eq_refl).
    destruct (Z.geb_spec attempt n); [reflexivity | lia].
  - cbn [fails_then] in Hrun.
    destruct Hrun as (err & s1 & s2 & Hfn & Hcb & Hrest).
    assert (Hlt : (attempt + Z.of_nat (Datatypes.S k) <= n)%Z) by (apply Hle; lia).
    destruct (IH (attempt + 1)%Z s2
                (tr ++ [Attempt (Rejected err);
                        Compensation err (Fulfilled tt)])
                o s_end Hrest) as (tr' & Heq & Hatt & Hcomp).
    + intros _. lia.
    + intros e He. specialize (Hge e He). lia.
    + exists (Attempt (Rejected err) :: Compensation err (Fulfilled tt) :: tr').
      repeat split.
      * rewrite attemptPromise_eq, (traced_fn_run s tr _ _ Hfn).
        destruct (Z.geb_spec attempt n); [lia |].
        cbn [invokeCb] in Hcb |- *.
        rewrite (traced_cb_run err s1 _ _ _ Hcb).
        rewrite <- app_assoc. cbn [app].
        rewrite <- app_assoc in Heq. cbn [app] in Heq. exact Heq.
      * change (Attempt (Rejected err) :: Compensation err (Fulfilled tt) :: tr')
          with ([Attempt (Rejected err); Compensation err (Fulfilled tt)] ++ tr').
        rewrite attempts_app, Hatt. reflexivity.
      * change (Attempt (Rejected err) :: Compensation err (Fulfilled tt) :: tr')
          with ([Attempt (Rejected err); Compensation err (Fulfilled tt)] ++ tr').
        rewrite compensations_app, Hcomp. reflexivity.
Qed.

End RetryTraced.

Section RetryShape.
Context {S T : Type}.
Variable fn : Async S T.
Variable cb : Error -> Async S unit.
Variable n : Z.

(** The shape of the trace of [attemptPromise], whatever the action and the
    callback do. *)
Lemma attemptPromise_interleaved :
  forall (fuel : nat) (attempt : Z) (s : S) (tr : list (RetryEvent T)),
    Z.to_nat (n - attempt) <= fuel ->
    exists tr',
      snd (snd (attemptPromise (traced_fn fn) (Some (traced_cb cb)) n
                  attempt (s, tr))) = tr ++ tr' /\
      interleaved tr' /\
      (forall err, last tr' (Attempt Unsettled) = Attempt (Rejected err) ->
                   (n <= attempt + Z.of_nat (attempts tr') - 1)%Z).
Proof.
  induction fuel as [| fuel IH]; intros attempt s tr Hfuel;
    rewrite attemptPromise_eq;
    destruct (fn s) as [o s1] eqn:Hfn; rewrite (traced_fn_run fn s tr _ _ Hfn).
  - exists [Attempt o].
    destruct o as [v | err | | |]; cbn; try (repeat split; congruence).
    destruct (Z.geb_spec attempt n); [| lia].
    cbn. repeat split. intros _ _. lia.
  - destruct o as [v | err | | |];
      try (eexists [Attempt _]; cbn; repeat split; congruence).
    destruct (Z.geb_spec attempt n) as [Hge | Hlt].
    + exists [Attempt (Rejected err)]. cbn. repeat split. intros _ _. lia.
    + cbn [invokeCb].
      destruct (cb err s1) as [oc s2] eqn:Hcb.
      rewrite (traced_cb_run cb err s1 _ _ _ Hcb).
      destruct oc as [[] | e2 | | |];
        try (eexists [Attempt (Rejected err); Compensation err _];
             cbn; rewrite <- app_assoc; repeat split; congruence).
      destruct (IH (attempt + 1)%Z s2
                  ((tr ++ [Attempt (Rejected err)]) ++
                   [Compensation err (Fulfilled tt)]))
        as (tr' & Heq & Hshape & Hlast); [lia |].
      exists (Attempt (Rejected err) :: Compensation err (Fulfilled tt) :: tr').
      split; [| split].
      * rewrite Heq, <- !app_assoc. reflexivity.
      * cbn. split; [reflexivity | exact Hshape].
      * intros e He.
        destruct tr' as [| ev tr'']; [destruct Hshape |].
        change (last (Attempt (Rejected err)
                      :: Compensation err (Fulfilled tt) :: ev :: tr'')
                     (Attempt Unsettled))
          with (last (ev :: tr'') (Attempt Unsettled)) in He.
        specialize (Hlast e He).
        change (Attempt (Rejected err)
                :: Compensation err (Fulfilled tt) :: ev :: tr'')
          with ([Attempt (Rejected err); Compensation err (Fulfilled tt)]
                ++ ev :: tr'').
        rewrite attempts_app.
        change (attempts [Attempt (Rejected err);
                          @Compensation T err (Fulfilled tt)]) with 1.
        lia.
Qed.

End RetryShape.

(** C2: for every maxAttempts n >= 1 and every action that fails k-1 times
    and then succeeds on attempt k <= n, the retry policy returns the
    action's success value, invokes the action exactly k times and the
    failure callback exactly k-1 times, and the success is the last thing
    that happens; with k = 1 the action runs once and the callback never. *)
Theorem retry_succeeds_on_attempt_k :
  forall (S T : Type) (fn : Async S T) (cb : Error -> Async S unit)
         (maxTries : option Z) (k : nat) (s : S) (v : T) (s_end : S),
    (1 <= maxTriesOrDefault maxTries)%Z ->
    1 <= k ->
    (Z.of_nat k <= maxTriesOrDefault maxTries)%Z ->
    fails_then fn (Some cb) (k - 1) s (Fulfilled v) s_end ->
    exists tr,
      retryPromiseIfNeeded (traced_fn fn) (Some (traced_cb cb)) maxTries
        (s, []) = (Fulfilled v, (s_end, tr ++ [Attempt (Fulfilled v)])) /\
      attempts (tr ++ [Attempt (Fulfilled v)]) = k /\
      compensations (tr ++ [Attempt (Fulfilled v)]) = k - 1.
Proof.
  intros S T fn cb maxTries k s v s_end Hn Hk Hkn Hrun.
  destruct (attemptPromise_fails_then fn cb (maxTriesOrDefault maxTries)
              _ 1%Z s [] _ s_end Hrun) as (tr & Heq & Hatt & Hcomp).
  - intros _. lia.
  - intros err He. discriminate He.
  - exists tr. unfold retryPromiseIfNeeded. rewrite Heq. cbn [app].
    repeat split.
    + rewrite attempts_app, Hatt. cbn. lia.
    + rewrite compensations_app, Hcomp. cbn. lia.
Qed.

Lemma retry_succeeds_on_attempt_k_witness :
  exists tr,
    retryPromiseIfNeeded (traced_fn (flaky 3)) (Some (traced_cb quietCb))
      (Some 5%Z) (0, []) = (Fulfilled "up", (3, tr ++ [Attempt (Fulfilled "up")])) /\
    attempts (tr ++ [Attempt (Fulfilled "up")]) = 3 /\
    compensations (tr ++ [Attempt (Fulfilled "up")]) = 3 - 1.
Proof.
  apply (@retry_succeeds_on_attempt_k nat string (flaky 3) quietCb
           (Some 5%Z) 3 0 "up" 3).
  - simpl. lia.
  - lia.
  - simpl. lia.
  - simpl. exists "down", 1, 1. repeat split.
    exists "down", 2, 2. repeat split.
Defined.

(** C3: for every maxAttempts n >= 1 and every action that fails on all n
    attempts, the retry policy rejects with the error of the n-th attempt,
    invokes the action exactly n times and the failure callback exactly
    n-1 times; the exhausting attempt is the last event, with no callback
    after it. *)
Theorem retry_exhausted_rejects_last_error :
  forall (S T : Type) (fn : Async S T) (cb : Error -> Async S unit)
         (maxTries : option Z) (n : nat) (s : S) (err : Error) (s_end : S),
    1 <= n ->
    maxTriesOrDefault maxTries = Z.of_nat n ->
    fails_then fn (Some cb) (n - 1) s (Rejected err) s_end ->
    exists tr,
      retryPromiseIfNeeded (traced_fn fn) (Some (traced_cb cb)) maxTries
        (s, []) = (Rejected err, (s_end, tr ++ [Attempt (Rejected err)])) /\
      attempts (tr ++ [Attempt (Rejected err)]) = n /\
      compensations (tr ++ [Attempt (Rejected err)]) = n - 1.
Proof.
  intros S T fn cb maxTries n s err s_end Hn Hmax Hrun.
  destruct (attemptPromise_fails_then fn cb (maxTriesOrDefault maxTries)
              _ 1%Z s [] _ s_end Hrun) as (tr & Heq & Hatt & Hcomp).
  - intros _. lia.
  - intros e _. lia.
  - exists tr. unfold retryPromiseIfNeeded. rewrite Heq. cbn [app].
    repeat split.
    + rewrite attempts_app, Hatt. cbn. lia.
    + rewrite compensations_app, Hcomp. cbn. lia.
Qed.

Lemma retry_exhausted_rejects_last_error_witness :
  exists tr,
    retryPromiseIfNeeded (traced_fn alwaysDown) (Some (traced_cb quietCb))
      (Some 3%Z) (0, []) =
      (Rejected "down", (3, tr ++ [Attempt (Rejected "down")])) /\
    attempts (tr ++ [Attempt (Rejected "down")]) = 3 /\
    compensations (tr ++ [Attempt (Rejected "down")]) = 3 - 1.
Proof.
  apply (@retry_exhausted_rejects_last_error nat string alwaysDown quietCb
           (Some 3%Z) 3 0 "down" 3).
  - lia.
  - reflexivity.
  - simpl. exists "down", 1, 1. repeat split.
    exists "down", 2, 2. repeat split.
Defined.

(** C9: for every maxAttempts value <= 1, zero and negative values
    included, a failing action is invoked exactly once and the policy
    rejects with that first error without invoking the failure callback. *)
Theorem retry_max_below_one_single_attempt :
  forall (S T : Type) (fn : Async S T) (cb : Error -> Async S unit)
         (maxTries : Z) (s : S) (err : Error) (s1 : S),
    (maxTries <= 1)%Z ->
    fn s = (Rejected err, s1) ->
    retryPromiseIfNeeded (traced_fn fn) (Some (traced_cb cb)) (Some maxTries)
      (s, []) = (Rejected err, (s1, [Attempt (Rejected err)])).
Proof.
  intros S T fn cb maxTries s err s1 Hmax Hfn.
  unfold retryPromiseIfNeeded. cbn [maxTriesOrDefault].
  rewrite attemptPromise_eq, (traced_fn_run fn s [] _ _ Hfn).
  destruct (Z.geb_spec 1 maxTries); [reflexivity | lia].
Qed.

Lemma retry_max_below_one_single_attempt_witness :
  retryPromiseIfNeeded (traced_fn alwaysDown) (Some (traced_cb quietCb))
    (Some (-2)%Z) (0, []) = (Rejected "down", (1, [Attempt (Rejected "down")])).
Proof.
  apply (@retry_max_below_one_single_attempt nat string alwaysDown quietCb
           (-2)%Z 0 "down" 1).
  - lia.
  - reflexivity.
Defined.

(** C7: in every retry execution with a failure callback, each failed
    attempt that is not the exhausting one is followed at once by the
    callback, called with that attempt's error, and the next attempt of the
    action comes only after the callback has returned; a trace that ends in
    a failed attempt has used up maxTries. *)
Theorem retry_compensation_between_attempts :
  forall (S T : Type) (fn : Async S T) (cb : Error -> Async S unit)
         (maxTries : option Z) (s : S),
    let tr := snd (snd (retryPromiseIfNeeded (traced_fn fn)
                          (Some (traced_cb cb)) maxTries (s, []))) in
    interleaved tr /\
    (forall err, last tr (Attempt Unsettled) = Attempt (Rejected err) ->
                 (maxTriesOrDefault maxTries <= Z.of_nat (attempts tr))%Z).
Proof.
  intros S T fn cb maxTries s tr.
  destruct (@attemptPromise_interleaved S T fn cb (maxTriesOrDefault maxTries)
              (Z.to_nat (maxTriesOrDefault maxTries - 1)) 1%Z s [])
    as (tr' & Heq & Hshape & Hlast); [lia |].
  cbn [app] in Heq. subst tr. unfold retryPromiseIfNeeded. rewrite Heq.
  split; [exact Hshape |].
  intros err He. specialize (Hlast err He). lia.
Qed.

Section RetryQuietCallback.
Context {S T : Type}.
Variable fn : Async S T.
Variable cb : Error -> Async S unit.
Variable n : Z.
Hypothesis cb_returns : forall err s, fst (cb err s) = Fulfilled tt.

(** With a callback that always returns, the run ends with an attempt of
    the action, and the outcome of that attempt is the result. *)
Lemma attemptPromise_ends_with_attempt :
  forall (fuel : nat) (attempt : Z) (s : S) (tr : list (RetryEvent T)),
    Z.to_nat (n - attempt) <= fuel ->
    exists tr',
      snd (snd (attemptPromise (traced_fn fn) (Some (traced_cb cb)) n
                  attempt (s, tr))) =
      tr ++ tr' ++
        [Attempt (fst (attemptPromise (traced_fn fn) (Some (traced_cb cb)) n
                         attempt (s, tr)))].
Proof.
  induction fuel as [| fuel IH]; intros attempt s tr Hfuel;
    rewrite attemptPromise_eq;
    destruct (fn s) as [o s1] eqn:Hfn; rewrite (traced_fn_run fn s tr _ _ Hfn).
  - exists [].
    destruct o as [v | err | | |]; try reflexivity.
    destruct (Z.geb_spec attempt n); [reflexivity | lia].
  - destruct o as [v | err | | |]; try (exists []; reflexivity).
    destruct (Z.geb_spec attempt n) as [Hge | Hlt]; [exists []; reflexivity |].
    cbn [invokeCb].
    destruct (cb err s1) as [oc s2] eqn:Hcb.
    pose proof (cb_returns err s1) as Hret. rewrite Hcb in Hret.
    cbn [fst] in Hret. subst oc.
    rewrite (traced_cb_run cb err s1 _ _ _ Hcb).
    destruct (IH (attempt + 1)%Z s2
                ((tr ++ [Attempt (Rejected err)]) ++
                 [Compensation err (Fulfilled tt)]))
      as (tr' & Heq); [lia |].
    exists (Attempt (Rejected err) :: Compensation err (Fulfilled tt) :: tr').
    rewrite Heq, <- !app_assoc. reflexivity.
Qed.

End RetryQuietCallback.

(** The two failure callbacks of [main] return normally whatever the
    environment answers to the removal they issue. *)
Lemma removeMothershipNode_returns (E : Env) (err : Error) (w : World) :
  fst (removeMothershipNode E err w) = Fulfilled tt.
Proof. reflexivity. Qed.

Lemma removeSwarmManager_returns (E : Env) (node : string) (err : Error)
    (w : World) :
  fst (removeSwarmManager E node err w) = Fulfilled tt.
Proof.
  unfold removeSwarmManager, detached, catch, bind, sshMachine, external, issue.
  destruct (respond E (calls w) _); reflexivity.
Qed.

(** C8, as the claim states it, fails: a callback that throws is not caught
    by the retry policy.  The action below succeeds on its second attempt.
    With a compensation that throws it is attempted once and the policy's
    promise never settles; with the same compensation swallowed inside the
    callback the policy returns the action's value. *)
Lemma throwing_callback_changes_result :
  retryPromiseIfNeeded (traced_fn (flaky 2)) (Some (traced_cb throwingCb))
    None (0, []) =
    (Unsettled,
     (1, [Attempt (Rejected "down");
          Compensation "down" (Rejected "cleanup failed")])) /\
  retryPromiseIfNeeded (traced_fn (flaky 2)) (Some (traced_cb swallowingCb))
    None (0, []) =
    (Fulfilled "up",
     (2, [Attempt (Rejected "down"); Compensation "down" (Fulfilled tt);
          Attempt (Fulfilled "up")])).
Proof.
  unfold retryPromiseIfNeeded. split.
  - rewrite attemptPromise_eq. reflexivity.
  - rewrite attemptPromise_eq. cbn. rewrite attemptPromise_eq. reflexivity.
Qed.

(** C8, amended: a compensation's failure is ignored when the callback
    itself swallows it.  For every retry execution whose failure callback
    returns normally whatever its compensation did, the last event is an
    attempt of the action and the policy's result is the outcome of that
    attempt; both destroy-by-name callbacks of the workflow are of this
    kind, for host A and for host B, whatever the removal answers. *)
Theorem swallowed_compensation_failure_ignored :
  forall (S T : Type) (fn : Async S T) (cb : Error -> Async S unit)
         (maxTries : option Z) (s : S),
    (forall err s0, fst (cb err s0) = Fulfilled tt) ->
    (exists tr,
       snd (snd (retryPromiseIfNeeded (traced_fn fn) (Some (traced_cb cb))
                   maxTries (s, []))) =
       tr ++ [Attempt (fst (retryPromiseIfNeeded (traced_fn fn)
                              (Some (traced_cb cb)) maxTries (s, [])))]) /\
    (forall E err w, fst (removeMothershipNode E err w) = Fulfilled tt) /\
    (forall E node err w, fst (removeSwarmManager E node err w) = Fulfilled tt).
Proof.
  intros S T fn cb maxTries s Hcb. split; [| split].
  - destruct (@attemptPromise_ends_with_attempt S T fn cb
                (maxTriesOrDefault maxTries) Hcb
                (Z.to_nat (maxTriesOrDefault maxTries - 1)) 1%Z s [])
      as (tr & Heq); [lia |].
    exists tr. exact Heq.
  - exact removeMothershipNode_returns.
  - exact removeSwarmManager_returns.
Qed.

Lemma swallowed_compensation_failure_ignored_witness :
  (exists tr,
     snd (snd (retryPromiseIfNeeded
                 (traced_fn (sshMachine hostileEnv MOTHERSHIP_NODE_NAME
                               (createSwarmCommand "token")))
                 (Some (traced_cb (removeSwarmManager hostileEnv
                                     MOTHERSHIP_NODE_NAME)))
                 None (initial, []))) =
     tr ++ [Attempt (fst (retryPromiseIfNeeded
                 (traced_fn (sshMachine hostileEnv MOTHERSHIP_NODE_NAME
                               (createSwarmCommand "token")))
                 (Some (traced_cb (removeSwarmManager hostileEnv
                                     MOTHERSHIP_NODE_NAME)))
                 None (initial, [])))]) /\
  (forall E err w, fst (removeMothershipNode E err w) = Fulfilled tt) /\
  (forall E node err w, fst (removeSwarmManager E node err w) = Fulfilled tt).
Proof.
  apply (@swallowed_compensation_failure_ignored World string
           (sshMachine hostileEnv MOTHERSHIP_NODE_NAME
              (createSwarmCommand "token"))
           (removeSwarmManager hostileEnv MOTHERSHIP_NODE_NAME)
           None initial).
  intros err s0. reflexivity.
Defined.

(** ** Running the workflow step by step *)

Section Stepping.
Variable E : Env.

Lemma external_ok (c : Call) (w : World) (r : string) :
  respond E (calls w) c = Ok r ->
  external E c w = (Fulfilled r, record (c, Ok r) w).
Proof. intros H. unfold external, issue. rewrite H. reflexivity. Qed.

Lemma external_failed (c : Call) (w : World) (err : Error) :
  respond E (calls w) c = Failed err ->
  external E c w = (Rejected err, record (c, Failed err) w).
Proof. intros H. unfold external, issue. rewrite H. reflexivity. Qed.

Lemma getMachineIp_ok (name : string) (w : World) (r : string) :
  respond E (calls w) (MachineInspect name) = Ok r ->
  getMachineIp E name w = (Fulfilled r, record (MachineInspect name, Ok r) w).
Proof. intros H. unfold getMachineIp, issue. rewrite H. reflexivity. Qed.

Lemma getMachineIp_failed (name : string) (w : World) (err : Error) :
  respond E (calls w) (MachineInspect name) = Failed err ->
  getMachineIp E name w = (Crashed, record (MachineInspect name, Failed err) w).
Proof. intros H. unfold getMachineIp, issue. rewrite H. reflexivity. Qed.

Lemma bind_rejected {A B} (m : Async World A) (k : A -> Async World B)
    (w w1 : World) (err : Error) :
  m w = (Rejected err, w1) -> bind m k w = (Rejected err, w1).
Proof. intros H. unfold bind. rewrite H. reflexivity. Qed.

Lemma createDockerMachine_failed (name token : string) (w : World) (err : Error) :
  respond E (calls w) (MachineCreate name "digitalocean" token) = Failed err ->
  createDockerMachine E name token w =
    (Rejected err, record (MachineCreate name "digitalocean" token, Failed err) w).
Proof.
  intros H. unfold createDockerMachine.
  apply bind_rejected, external_failed, H.
Qed.

Lemma removeMothershipNode_run (err : Error) (w : World) :
  removeMothershipNode E err w =
    (Fulfilled tt,
     record (SpawnSync (rmCommand MOTHERSHIP_NODE_NAME),
             respond E (calls w) (SpawnSync (rmCommand MOTHERSHIP_NODE_NAME))) w).
Proof. reflexivity. Qed.

End Stepping.

Ltac eval_geb :=
  match goal with
  | |- context [(?a >=? ?b)%Z] =>
      let v := eval vm_compute in (a >=? b)%Z in
      change (a >=? b)%Z with v
  end.

Ltac run_pure :=
  cbn [bind catch ret emit consoleClear consoleLog consoleLogMagenta
       consoleTable ora start succeed fail promptForInput processExit
       fst snd calls console drawn app initial DockerMachine record display].


Lemma bind_eq {S A B} (m : Async S A) (k : A -> Async S B) (s : S) :
  bind m k s =
  match m s with
  | (Fulfilled a, s1) => k a s1
  | (Rejected err, s1) => (Rejected err, s1)
  | (Exited, s1) => (Exited, s1)
  | (Unsettled, s1) => (Unsettled, s1)
  | (Crashed, s1) => (Crashed, s1)
  end.
Proof. reflexivity. Qed.

Lemma catch_eq {S A} (m : Async S A) (h : Error -> Async S A) (s : S) :
  catch m h s =
  match m s with
  | (Fulfilled a, s1) => (Fulfilled a, s1)
  | (Rejected err, s1) => h err s1
  | (Exited, s1) => (Exited, s1)
  | (Unsettled, s1) => (Unsettled, s1)
  | (Crashed, s1) => (Crashed, s1)
  end.
Proof. reflexivity. Qed.

(** Bring the computation that runs next to the surface. *)
Ltac expose := repeat first [rewrite bind_eq | rewrite catch_eq].

Ltac run_world := cbn [record display calls console drawn app].

(** One failed attempt at creating host A. *)
Ltac create_fails_once E create_fails :=
  rewrite attemptPromise_eq;
  match goal with
  | |- context [createDockerMachine E ?n ?t ?w0] =>
      let e := fresh "e" in
      let He := fresh "He" in
      destruct (create_fails (calls w0) t) as [e He];
      rewrite (createDockerMachine_failed E n t w0 e He); clear He
  end;
  eval_geb; cbv iota; run_world.

(** The reply to a compensation is whatever the environment says. *)
Ltac any_reply E :=
  match goal with
  | |- context [respond E ?h ?c] =>
      let r := fresh "r" in generalize (respond E h c); intro r
  end.

Section MothershipNeverCreated.
Variable E : Env.
Hypothesis create_fails :
  forall h token, exists err,
    respond E h (MachineCreate MOTHERSHIP_NODE_NAME "digitalocean" token) =
    Failed err.

Lemma main_when_create_fails (P : Outcome unit * World -> Prop) :
  (forall e1 e2 e3 e4 e5 r1 r2 r3 r4,
     let create :=
       MachineCreate MOTHERSHIP_NODE_NAME "digitalocean"
         (operator E "Please enter your DigitalOcean access token:") in
     let rm := SpawnSync (rmCommand MOTHERSHIP_NODE_NAME) in
     P (Exited,
        mkWorld
          [(create, Failed e1); (rm, r1); (create, Failed e2); (rm, r2);
           (create, Failed e3); (rm, r3); (create, Failed e4); (rm, r4);
           (create, Failed e5)]
          (bannerShown ++
           [SpinnerFail
              "Creating droplet for Mothership (this may take a few moments)...";
            ConsoleLog createFailedMessage])
          0)) ->
  P (main E initial).
Proof.
  intros HP. unfold main. run_pure. expose.
  unfold retryPromiseIfNeeded. cbn [maxTriesOrDefault].
  do 4 (create_fails_once E create_fails;
        cbn [invokeCb]; rewrite (removeMothershipNode_run E); run_world;
        any_reply E).
  create_fails_once E create_fails.
  run_pure. apply HP.
Qed.

End MothershipNeverCreated.

(** C4: if creating host A fails on every one of its 5 attempts, the
    workflow exits after the fifth attempt: the only calls issued are the
    five creation attempts of host A and the four removals between them,
    none of which touches host B, and the last things the operator sees are
    the failed spinner of host A's creation step and its message. *)
Theorem create_mothership_exhausted_halts :
  forall E : Env,
    (forall h token, exists err,
        respond E h (MachineCreate MOTHERSHIP_NODE_NAME "digitalocean" token)
        = Failed err) ->
    let create :=
      MachineCreate MOTHERSHIP_NODE_NAME "digitalocean"
        (operator E "Please enter your DigitalOcean access token:") in
    let rm := SpawnSync (rmCommand MOTHERSHIP_NODE_NAME) in
    fst (main E initial) = Exited /\
    map fst (calls (snd (main E initial))) =
      [create; rm; create; rm; create; rm; create; rm; create] /\
    forallb (fun c => negb (touchesSwarmManager c))
      (map fst (calls (snd (main E initial)))) = true /\
    console (snd (main E initial)) =
      bannerShown ++
      [SpinnerFail
         "Creating droplet for Mothership (this may take a few moments)...";
       ConsoleLog "Could not successfully create node on 5 attempts."].
Proof.
  intros E Hfail create rm.
  apply (main_when_create_fails E Hfail).
  intros e1 e2 e3 e4 e5 r1 r2 r3 r4 create' rm'.
  cbn [fst snd calls console map].
  repeat split.
Qed.

Lemma create_mothership_exhausted_halts_witness :
  fst (main hostileEnv initial) = Exited /\
  map fst (calls (snd (main hostileEnv initial))) =
    [MachineCreate MOTHERSHIP_NODE_NAME "digitalocean" EmptyString;
     SpawnSync (rmCommand MOTHERSHIP_NODE_NAME);
     MachineCreate MOTHERSHIP_NODE_NAME "digitalocean" EmptyString;
     SpawnSync (rmCommand MOTHERSHIP_NODE_NAME);
     MachineCreate MOTHERSHIP_NODE_NAME "digitalocean" EmptyString;
     SpawnSync (rmCommand MOTHERSHIP_NODE_NAME);
     MachineCreate MOTHERSHIP_NODE_NAME "digitalocean" EmptyString;
     SpawnSync (rmCommand MOTHERSHIP_NODE_NAME);
     MachineCreate MOTHERSHIP_NODE_NAME "digitalocean" EmptyString] /\
  forallb (fun c => negb (touchesSwarmManager c))
    (map fst (calls (snd (main hostileEnv initial)))) = true /\
  console (snd (main hostileEnv initial)) =
    bannerShown ++
    [SpinnerFail
       "Creating droplet for Mothership (this may take a few moments)...";
     ConsoleLog "Could not successfully create node on 5 attempts."].
Proof.
  apply (create_mothership_exhausted_halts hostileEnv).
  intros h token. exists "unreachable". reflexivity.
Defined.

(** Keep the world in the form of a record of explicit lists. *)
Ltac normal_world :=
  cbv beta iota zeta delta [record display calls console drawn app].

(** One call that the environment answers with success. *)
Ltac call_succeeds E all_ok :=
  expose;
  match goal with
  | |- context [external E ?c ?w0] =>
      let r := fresh "r" in
      let Hr := fresh "Hr" in
      destruct (all_ok (calls w0) c) as [r Hr];
      rewrite (external_ok E c w0 r Hr); clear Hr
  | |- context [getMachineIp E ?name ?w0] =>
      let r := fresh "r" in
      let Hr := fresh "Hr" in
      destruct (all_ok (calls w0) (MachineInspect name)) as [r Hr];
      rewrite (getMachineIp_ok E name w0 r Hr); clear Hr
  end;
  cbv iota beta; run_pure; normal_world.

Section NothingFails.
Variable E : Env.
Hypothesis all_ok : forall h c, exists r, respond E h c = Ok r.

Lemma main_when_nothing_fails (P : Outcome unit * World -> Prop) :
  (forall (rawIp : string) (w : World),
     map fst (calls w) =
       expectedCalls (enteredToken E) (trim rawIp)
         (composeTemplate (toStringHex (bytesFrom E 0 256))
            (enteredDomain E) (trim rawIp)) ->
     forallb (fun e => isOk (snd e)) (calls w) = true ->
     In (MachineSsh MOTHERSHIP_NODE_NAME ipCommand, Ok rawIp) (calls w) ->
     P (Exited, w)) ->
  P (main E initial).
Proof.
  intros HP.
  unfold main, sshMachine, createDockerMachine.
  run_pure. expose.
  unfold retryPromiseIfNeeded. cbn [maxTriesOrDefault].
  rewrite attemptPromise_eq.
  call_succeeds E all_ok.
  call_succeeds E all_ok.
  do 3 call_succeeds E all_ok.
  expose. unfold retryPromiseIfNeeded. cbn [maxTriesOrDefault].
  rewrite attemptPromise_eq.
  call_succeeds E all_ok.
  do 5 call_succeeds E all_ok.
  cbn [dockerComposeContent randomBytes bind ret fst snd calls console drawn].
  normal_world.
  do 4 call_succeeds E all_ok.
  unfold processExit, ora, DockerMachine.
  match goal with |- P (Exited, ?w) => apply (HP r5 w) end.
  - reflexivity.
  - reflexivity.
  - cbn [calls In]. do 6 right. left. reflexivity.
Qed.

End NothingFails.

(** One call that succeeds, keeping what the environment answered. *)
Ltac call_succeeds_keep E all_ok r Hr :=
  expose;
  match goal with
  | |- context [external E ?c ?w0] =>
      destruct (all_ok (calls w0) c) as [r Hr];
      rewrite (external_ok E c w0 r Hr)
  | |- context [getMachineIp E ?name ?w0] =>
      destruct (all_ok (calls w0) (MachineInspect name)) as [r Hr];
      rewrite (getMachineIp_ok E name w0 r Hr)
  end;
  cbv iota beta; run_pure; normal_world.

Section NothingFailsReport.
Variable E : Env.
Hypothesis all_ok : forall h c, exists r, respond E h c = Ok r.

Lemma main_report_when_nothing_fails (P : Outcome unit * World -> Prop) :
  (forall (rawIp mothershipIp : string) (h : list Entry) (w : World),
     respond E h (MachineSsh MOTHERSHIP_NODE_NAME ipCommand) = Ok rawIp ->
     In (MachineInspect MOTHERSHIP_NODE_NAME, Ok mothershipIp) (calls w) ->
     In (MachineSsh MOTHERSHIP_NODE_NAME ipCommand, Ok rawIp) (calls w) ->
     map fst (calls w) =
       expectedCalls (enteredToken E) (trim rawIp)
         (composeTemplate (toStringHex (bytesFrom E 0 256))
            (enteredDomain E) (trim rawIp)) ->
     last (removelast (console w)) ConsoleClear =
       ConsoleTable
         [ ["Name"; "Type"; "IP Address"];
           ["@"; "A"; trim rawIp];
           ["*"; "A"; trim rawIp];
           ["mothership"; "A"; mothershipIp] ] ->
     last (console w) ConsoleClear =
       ConsoleLog
         ("After adding these resource records visit Mothership online: http://mothership."
          +++ enteredDomain E) ->
     forallb (fun o => negb (isSpinnerFail o)) (console w) = true ->
     drawn w = 256 ->
     P (Exited, w)) ->
  P (main E initial).
Proof.
  intros HP.
  unfold main, sshMachine, createDockerMachine.
  run_pure. expose.
  unfold retryPromiseIfNeeded. cbn [maxTriesOrDefault].
  rewrite attemptPromise_eq.
  call_succeeds E all_ok.
  call_succeeds_keep E all_ok mothershipIp Hinspect. clear Hinspect.
  do 3 call_succeeds E all_ok.
  expose. unfold retryPromiseIfNeeded. cbn [maxTriesOrDefault].
  rewrite attemptPromise_eq.
  call_succeeds E all_ok.
  call_succeeds_keep E all_ok rawIp Hip.
  do 4 call_succeeds E all_ok.
  cbn [dockerComposeContent randomBytes bind ret fst snd calls console drawn].
  normal_world.
  do 4 call_succeeds E all_ok.
  unfold processExit, ora, DockerMachine.
  match goal with
  | |- P (Exited, ?w) => apply (HP rawIp mothershipIp _ w Hip)
  end.
  - cbn [calls In]. right. left. reflexivity.
  - cbn [calls In]. do 6 right. left. reflexivity.
  - reflexivity.
  - reflexivity.
  - reflexivity.
  - reflexivity.
  - reflexivity.
Qed.

End NothingFailsReport.

(** ** What every run records *)

Section RetriedShape.
Variable E : Env.
Variables c cc : Call.
Variable cb : Error -> Async World unit.
Hypothesis cb_run :
  forall err w,
    cb err w = (Fulfilled tt, record (cc, respond E (calls w) cc) w).
Variable n : Z.

(** The record of a creation under retry, for every environment. *)
Lemma attemptPromise_retried :
  forall (fuel : nat) (attempt : Z) (w : World),
    Z.to_nat (n - attempt) <= fuel ->
    exists l,
      calls (snd (attemptPromise (bind (external E c) (fun _ => ret tt))
                    (Some cb) n attempt w)) = calls w ++ l /\
      retried c cc l
        (fulfilled (fst (attemptPromise (bind (external E c) (fun _ => ret tt))
                           (Some cb) n attempt w))).
Proof.
  induction fuel as [| fuel IH]; intros attempt w Hfuel;
    rewrite attemptPromise_eq, bind_eq;
    destruct (respond E (calls w) c) as [r | err] eqn:Hr;
    try (rewrite (external_ok E c w r Hr); exists [(c, Ok r)];
         split; [reflexivity | cbn; split; reflexivity]);
    rewrite (external_failed E c w err Hr);
    destruct (Z.geb_spec attempt n) as [Hge | Hlt];
    try (exists [(c, Failed err)]; split; [reflexivity | cbn; split; reflexivity]);
    try lia.
  cbn [invokeCb]. rewrite cb_run.
  destruct (IH (attempt + 1)%Z
              (record (cc, respond E (calls (record (c, Failed err) w)) cc)
                 (record (c, Failed err) w)))
    as (l & Hcalls & Hshape); [lia |].
  exists ((c, Failed err)
          :: (cc, respond E (calls (record (c, Failed err) w)) cc) :: l).
  split.
  - rewrite Hcalls. cbn [record calls]. rewrite <- !app_assoc. reflexivity.
  - cbn [retried]. repeat split. exact Hshape.
Qed.

End RetriedShape.

Lemma removeSwarmManager_run (E : Env) (node : string) (err : Error)
    (w : World) :
  removeSwarmManager E node err w =
    (Fulfilled tt,
     record (MachineSsh node (rmCommand SWARM_MANAGER_NODE_NAME),
             respond E (calls w)
               (MachineSsh node (rmCommand SWARM_MANAGER_NODE_NAME))) w).
Proof.
  unfold removeSwarmManager, detached, catch, bind, sshMachine, external, issue.
  destruct (respond E (calls w) _); reflexivity.
Qed.

Section Logs.
Variable E : Env.
Variable R : bool -> list Entry -> Prop.
Hypothesis R_nil : forall b, R b [].
Hypothesis R_app : forall b l1 l2, R true l1 -> R b l2 -> R b (l1 ++ l2).
Hypothesis R_step : forall c r, StepCall c -> R (isOk r) [(c, r)].
Hypothesis R_createA :
  forall ok l,
    retried (MachineCreate MOTHERSHIP_NODE_NAME "digitalocean" (enteredToken E))
      (SpawnSync (rmCommand MOTHERSHIP_NODE_NAME)) l ok ->
    R ok l.
Hypothesis R_createB :
  forall ok l,
    retried
      (MachineSsh MOTHERSHIP_NODE_NAME (createSwarmCommand (enteredToken E)))
      (MachineSsh MOTHERSHIP_NODE_NAME (rmCommand SWARM_MANAGER_NODE_NAME))
      l ok ->
    R ok l.

Lemma logs_ret {A} (a : A) : logs R (ret a).
Proof. intros w. exists []. cbn. rewrite app_nil_r. auto. Qed.

Lemma logs_emit (o : Output) : logs R (emit o).
Proof. intros w. exists []. cbn. rewrite app_nil_r. auto. Qed.

Lemma logs_exit {A} : logs R (@processExit A).
Proof. intros w. exists []. cbn. rewrite app_nil_r. auto. Qed.

Lemma logs_bind {A B} (m : Async World A) (k : A -> Async World B) :
  logs R m -> (forall a, logs R (k a)) -> logs R (bind m k).
Proof.
  intros Hm Hk w. rewrite bind_eq.
  destruct (Hm w) as (l1 & Hc1 & HR1).
  destruct (m w) as [[a | err | | |] w1]; cbn [fst snd fulfilled] in *;
    try (exists l1; split; assumption).
  destruct (Hk a w1) as (l2 & Hc2 & HR2).
  exists (l1 ++ l2). split.
  - rewrite Hc2, Hc1, app_assoc. reflexivity.
  - apply R_app; assumption.
Qed.

Lemma logs_start (spinner : string) : logs R (start spinner).
Proof. apply logs_bind; [apply logs_emit | intros _; apply logs_ret]. Qed.

(** What the operator answers is what the rest of the run works with. *)
Lemma logs_prompt {B} (prompt : string) (k : string -> Async World B) :
  logs R (k (operator E prompt)) ->
  logs R (bind (promptForInput E prompt) k).
Proof.
  intros Hk w.
  destruct (Hk (display (Question (prompt +++ nl +++ "> ")) w))
    as (l & Hc & HR).
  exists l. split; assumption.
Qed.

Lemma logs_step (c : Call) : StepCall c -> logs R (external E c).
Proof.
  intros Hc w. exists [(c, respond E (calls w) c)].
  unfold external, issue.
  pose proof (R_step c (respond E (calls w) c) Hc) as HR.
  destruct (respond E (calls w) c); cbn in *; auto.
Qed.

Lemma logs_inspect : logs R (getMachineIp E MOTHERSHIP_NODE_NAME).
Proof.
  intros w.
  exists [(MachineInspect MOTHERSHIP_NODE_NAME,
           respond E (calls w) (MachineInspect MOTHERSHIP_NODE_NAME))].
  unfold getMachineIp, issue.
  pose proof (R_step (MachineInspect MOTHERSHIP_NODE_NAME)
                (respond E (calls w) (MachineInspect MOTHERSHIP_NODE_NAME))
                StepInspect) as HR.
  destruct (respond E (calls w) (MachineInspect MOTHERSHIP_NODE_NAME));
    cbn in *; auto.
Qed.

Lemma logs_content (domain ip : string) :
  logs R (dockerComposeContent E domain ip).
Proof. intros w. exists []. cbn. rewrite app_nil_r. auto. Qed.

(** The handler of both creations: report and exit. *)
Lemma logs_catch_exit (m : Async World unit) (spinner message : string) :
  logs R m ->
  logs R (catch m (fun _ => bind (fail spinner)
                    (fun _ => bind (consoleLog message)
                       (fun _ => processExit)))).
Proof.
  intros Hm w. rewrite catch_eq.
  destruct (Hm w) as (l & Hc & HR).
  destruct (m w) as [[a | err | | |] w1]; cbn [fst snd fulfilled] in *;
    exists l; split; assumption.
Qed.

Lemma logs_createA :
  logs R (retryPromiseIfNeeded
            (createDockerMachine E MOTHERSHIP_NODE_NAME (enteredToken E))
            (Some (removeMothershipNode E)) None).
Proof.
  intros w. unfold retryPromiseIfNeeded, createDockerMachine.
  destruct (attemptPromise_retried E
              (MachineCreate MOTHERSHIP_NODE_NAME "digitalocean" (enteredToken E))
              (SpawnSync (rmCommand MOTHERSHIP_NODE_NAME))
              (removeMothershipNode E) (removeMothershipNode_run E)
              (maxTriesOrDefault None)
              (Z.to_nat (maxTriesOrDefault None - 1)) 1%Z w)
    as (l & Hc & Hshape); [lia |].
  exists l. split; [exact Hc | apply R_createA, Hshape].
Qed.

Lemma logs_createB :
  logs R (retryPromiseIfNeeded
            (bind (sshMachine E MOTHERSHIP_NODE_NAME
                     (createSwarmCommand (enteredToken E)))
                  (fun _ => ret tt))
            (Some (removeSwarmManager E MOTHERSHIP_NODE_NAME)) None).
Proof.
  intros w. unfold retryPromiseIfNeeded, sshMachine.
  destruct (attemptPromise_retried E
              (MachineSsh MOTHERSHIP_NODE_NAME
                 (createSwarmCommand (enteredToken E)))
              (MachineSsh MOTHERSHIP_NODE_NAME
                 (rmCommand SWARM_MANAGER_NODE_NAME))
              (removeSwarmManager E MOTHERSHIP_NODE_NAME)
              (removeSwarmManager_run E MOTHERSHIP_NODE_NAME)
              (maxTriesOrDefault None)
              (Z.to_nat (maxTriesOrDefault None - 1)) 1%Z w)
    as (l & Hc & Hshape); [lia |].
  exists l. split; [exact Hc | apply R_createB, Hshape].
Qed.

Ltac logs_prim :=
  first
    [ apply logs_emit
    | apply logs_start
    | apply logs_content
    | apply logs_exit
    | apply logs_inspect
    | apply logs_step; constructor
    | apply logs_catch_exit; apply logs_bind;
      [ first [apply logs_createA | apply logs_createB]
      | intros _; apply logs_emit ] ].

(** Every run of [main], in every environment, records calls that fit
    together as [R] says. *)
Lemma main_logs : logs R (main E).
Proof.
  unfold main. cbv zeta.
  unfold sshMachine, DockerMachine, ora.
  repeat first [ apply logs_prompt
               | apply logs_bind; [logs_prim | intros ?] ].
  logs_prim.
Qed.

End Logs.

(** ** Facts about the record of calls *)

Lemma retried_forallb (f : Call -> bool) (c cc : Call) :
  f c = true -> f cc = true ->
  forall (n : nat) (l : list Entry) (ok : bool),
    List.length l <= n -> retried c cc l ok ->
    forallb f (map fst l) = true.
Proof.
  intros Hc Hcc. induction n as [| n IH]; intros l ok Hlen Hshape.
  - destruct l; [destruct Hshape | cbn in Hlen; lia].
  - destruct l as [| [c1 r1] [| [c2 r2] rest]]; cbn [retried] in Hshape.
    + destruct Hshape.
    + destruct Hshape as [-> _]. cbn. rewrite Hc. reflexivity.
    + destruct Hshape as (-> & _ & -> & Hrest).
      cbn [map fst forallb]. rewrite Hc, Hcc. cbn [andb].
      apply (IH rest ok); [cbn in Hlen; lia | exact Hrest].
Qed.

Lemma closed_cons (e e' : Entry) (l : list Entry) :
  closed (e :: e' :: l) = closed (e' :: l).
Proof.
  unfold closed. cbn [rev].
  destruct (rev l ++ [e']) as [| x xs] eqn:Hrev.
  - destruct (rev l); discriminate Hrev.
  - reflexivity.
Qed.

Lemma closed_follows (token : string) (e next : Entry) :
  closed [e] = true -> follows token e next = true.
Proof.
  unfold closed, follows. cbn [rev app].
  destruct (compensationOf (fst e)); [discriminate |].
  intros ->. reflexivity.
Qed.

Lemma ordered_app (token : string) (l1 l2 : list Entry) :
  ordered token l1 = true -> closed l1 = true -> ordered token l2 = true ->
  ordered token (l1 ++ l2) = true.
Proof.
  induction l1 as [| e l1 IH]; intros Ho Hc Ho2; [exact Ho2 |].
  destruct l1 as [| e' l1].
  - cbn [app]. destruct l2 as [| next l2]; [reflexivity |].
    cbn [ordered]. rewrite (closed_follows token e next Hc). exact Ho2.
  - cbn [app ordered] in *.
    apply andb_true_iff in Ho. destruct Ho as [Hf Ho].
    rewrite Hf. cbn [andb]. apply IH; [exact Ho | | exact Ho2].
    rewrite closed_cons in Hc. exact Hc.
Qed.

Lemma closed_app (l1 l2 : list Entry) :
  closed l1 = true -> closed l2 = true -> closed (l1 ++ l2) = true.
Proof.
  intros H1 H2. unfold closed in *. rewrite rev_app_distr.
  destruct (rev l2) as [| x xs]; [exact H1 | exact H2].
Qed.

Lemma retried_ordered (token : string) (c cc : Call) :
  (forall r r', isOk r = false -> follows token (c, r) (cc, r') = true) ->
  (forall r r', follows token (cc, r) (c, r') = true) ->
  compensationOf c = None ->
  forall (n : nat) (l : list Entry) (ok : bool),
    List.length l <= n -> retried c cc l ok ->
    ordered token l = true /\ (ok = true -> closed l = true).
Proof.
  intros Hfail Hagain Hc. induction n as [| n IH]; intros l ok Hlen Hshape.
  - destruct l; [destruct Hshape | cbn in Hlen; lia].
  - destruct l as [| [c1 r1] [| [c2 r2] rest]]; cbn [retried] in Hshape.
    + destruct Hshape.
    + destruct Hshape as [-> Hok]. split; [reflexivity |].
      intros ->. unfold closed. cbn [rev app fst snd]. rewrite Hc. exact Hok.
    + destruct Hshape as (-> & Hr1 & -> & Hrest).
      destruct (IH rest ok) as [Ho Hcl]; [cbn in Hlen; lia | exact Hrest |].
      destruct rest as [| [c3 r3] rest]; [destruct Hrest |].
      assert (Hc3 : c3 = c).
      { cbn [retried] in Hrest. destruct Hrest as [H _]. exact H. }
      subst c3. split.
      * cbn [ordered] in *. rewrite (Hfail r1 r2 Hr1), (Hagain r2 r3).
        cbn [andb]. exact Ho.
      * intros Hok. rewrite !closed_cons. apply Hcl, Hok.
Qed.

Lemma step_not_compensation (c : Call) :
  StepCall c -> compensationOf c = None.
Proof. destruct 1; reflexivity. Qed.

Lemma step_through_mothership (c : Call) :
  StepCall c -> throughMothership c = true.
Proof. destruct 1; reflexivity. Qed.

Lemma through_mothership_touch (c : Call) :
  throughMothership c = true ->
  implb (touchesSwarmManager c) (onMothership c) = true.
Proof.
  destruct c as [name driver token | name | name command | command];
    cbn [throughMothership touchesSwarmManager onMothership]; intros H.
  - apply String.eqb_eq in H. subst name. reflexivity.
  - apply String.eqb_eq in H. subst name. reflexivity.
  - rewrite H. apply Bool.implb_true_r.
  - apply String.eqb_eq in H. subst command. reflexivity.
Qed.

(** In every environment, the calls of [main] follow one another as
    [ordered] says. *)
Lemma main_ordered (E : Env) :
  logs (fun b l => ordered (enteredToken E) l = true /\
                   (b = true -> closed l = true))
       (main E).
Proof.
  apply main_logs.
  - intros b. split; reflexivity.
  - intros b l1 l2 [Ho1 Hc1] [Ho2 Hc2]. split.
    + apply ordered_app; auto.
    + intros Hb. apply closed_app; auto.
  - intros c r Hstep. split; [reflexivity |].
    intros Hok. unfold closed. cbn [rev app fst snd].
    rewrite (step_not_compensation c Hstep). exact Hok.
  - intros ok l Hshape.
    apply (retried_ordered (enteredToken E)
             (MachineCreate MOTHERSHIP_NODE_NAME "digitalocean" (enteredToken E))
             (SpawnSync (rmCommand MOTHERSHIP_NODE_NAME)))
      with (n := List.length l); auto.
    intros r r' Hr. unfold follows. cbn [fst snd]. rewrite Hr. reflexivity.
  - intros ok l Hshape.
    apply (retried_ordered (enteredToken E)
             (MachineSsh MOTHERSHIP_NODE_NAME
                (createSwarmCommand (enteredToken E)))
             (MachineSsh MOTHERSHIP_NODE_NAME
                (rmCommand SWARM_MANAGER_NODE_NAME)))
      with (n := List.length l); auto.
    + intros r r' Hr. unfold follows. cbn [fst snd]. rewrite Hr.
      cbn [compensationOf creationOf]. rewrite !String.eqb_refl. reflexivity.
    + intros r r'. unfold follows. cbn [fst snd compensationOf creationOf].
      rewrite !String.eqb_refl. reflexivity.
Qed.

Lemma main_through_mothership (E : Env) :
  logs (fun _ l => forallb throughMothership (map fst l) = true) (main E).
Proof.
  apply main_logs.
  - intros _. reflexivity.
  - intros _ l1 l2 H1 H2. cbv beta in *.
    rewrite map_app, forallb_app. apply andb_true_iff. split; assumption.
  - intros c r Hstep. cbn. rewrite (step_through_mothership c Hstep).
    reflexivity.
  - intros ok l Hshape.
    apply (retried_forallb throughMothership
             (MachineCreate MOTHERSHIP_NODE_NAME "digitalocean" (enteredToken E))
             (SpawnSync (rmCommand MOTHERSHIP_NODE_NAME)) eq_refl eq_refl
             (List.length l) l ok (le_n _) Hshape).
  - intros ok l Hshape.
    apply (retried_forallb throughMothership
             (MachineSsh MOTHERSHIP_NODE_NAME
                (createSwarmCommand (enteredToken E)))
             (MachineSsh MOTHERSHIP_NODE_NAME
                (rmCommand SWARM_MANAGER_NODE_NAME)) eq_refl eq_refl
             (List.length l) l ok (le_n _) Hshape).
Qed.

(** A run with retries: host A is created at the third attempt and host B
    at the second, the removals in between fail, and the workflow goes on
    to its end. *)
Example flaky_run_calls :
  fst (main flakyEnv initial) = Exited /\
  map (fun e => (fst e, isOk (snd e))) (calls (snd (main flakyEnv initial))) =
    [ (MachineCreate MOTHERSHIP_NODE_NAME "digitalocean" "token", false);
      (SpawnSync (rmCommand MOTHERSHIP_NODE_NAME), false);
      (MachineCreate MOTHERSHIP_NODE_NAME "digitalocean" "token", false);
      (SpawnSync (rmCommand MOTHERSHIP_NODE_NAME), false);
      (MachineCreate MOTHERSHIP_NODE_NAME "digitalocean" "token", true);
      (MachineInspect MOTHERSHIP_NODE_NAME, true);
      (MachineSsh MOTHERSHIP_NODE_NAME installComposeCommand, true);
      (MachineSsh MOTHERSHIP_NODE_NAME chmodComposeCommand, true);
      (MachineSsh MOTHERSHIP_NODE_NAME installMachineCommand, true);
      (MachineSsh MOTHERSHIP_NODE_NAME (createSwarmCommand "token"), false);
      (MachineSsh MOTHERSHIP_NODE_NAME (rmCommand SWARM_MANAGER_NODE_NAME),
       false);
      (MachineSsh MOTHERSHIP_NODE_NAME (createSwarmCommand "token"), true);
      (MachineSsh MOTHERSHIP_NODE_NAME ipCommand, true);
      (MachineSsh MOTHERSHIP_NODE_NAME (swarmInitCommand "203.0.113.20"),
       true);
      (MachineSsh MOTHERSHIP_NODE_NAME networkCommand, true);
      (MachineSsh MOTHERSHIP_NODE_NAME listenerCommand, true);
      (MachineSsh MOTHERSHIP_NODE_NAME proxyCommand, true);
      (MachineSsh MOTHERSHIP_NODE_NAME
         (writeComposeCommand
            (composeTemplate (toStringHex (bytesFrom flakyEnv 0 256))
               "example.org" "203.0.113.20")), true);
      (MachineSsh MOTHERSHIP_NODE_NAME composeUpCommand, true);
      (MachineSsh MOTHERSHIP_NODE_NAME migrateCommand, true);
      (MachineSsh MOTHERSHIP_NODE_NAME seedCommand, true) ].
Proof. split; vm_compute; reflexivity. Qed.

(** [ordered] tells runs apart: a failed call that is not a creation must
    be the last one. *)
Example ordered_rejects_call_after_failure :
  ordered "token"
    [ (MachineInspect MOTHERSHIP_NODE_NAME, Failed "unreachable");
      (MachineSsh MOTHERSHIP_NODE_NAME installComposeCommand, Ok EmptyString) ]
  = false /\
  ordered "token"
    [ (MachineCreate MOTHERSHIP_NODE_NAME "digitalocean" "token",
       Failed "timeout");
      (MachineInspect MOTHERSHIP_NODE_NAME, Ok "203.0.113.10") ]
  = false.
Proof. split; reflexivity. Qed.

(** C1: when no call fails, the workflow issues exactly the calls of
    [expectedCalls], in that order: create A, address of A, docker-compose
    then docker-machine on A, create B through A, address of B through A,
    cluster, network, listener, proxy, descriptor, stack, migration, seed.
    In every environment, a call is followed by another one only if it
    succeeded, except that a failed creation is followed by the removal of
    that host and the removal by the next attempt to create it. *)
Theorem workflow_step_order :
  forall E : Env,
    ordered (enteredToken E) (calls (snd (main E initial))) = true /\
    ((forall h c, exists r, respond E h c = Ok r) ->
     exists rawIp,
       fst (main E initial) = Exited /\
       forallb (fun e => isOk (snd e)) (calls (snd (main E initial))) = true /\
       In (MachineSsh MOTHERSHIP_NODE_NAME ipCommand, Ok rawIp)
          (calls (snd (main E initial))) /\
       map fst (calls (snd (main E initial))) =
         expectedCalls (enteredToken E) (trim rawIp)
           (composeTemplate (toStringHex (bytesFrom E 0 256))
              (enteredDomain E) (trim rawIp))).
Proof.
  intros E. split.
  - destruct (main_ordered E initial) as (l & Hcalls & Hordered & _).
    cbn [calls initial app] in Hcalls. rewrite Hcalls. exact Hordered.
  - intros Hok. apply (main_when_nothing_fails E Hok).
    intros rawIp w Hcalls Hreplies Hip. exists rawIp.
    cbn [fst snd]. auto.
Qed.

Lemma friendlyEnv_answers :
  forall h c, exists r, respond friendlyEnv h c = Ok r.
Proof.
  intros h c. destruct c as [name driver token | name | name command | command];
    cbn [respond friendlyEnv]; try (eexists; reflexivity).
  destruct (String.eqb command ipCommand); eexists; reflexivity.
Qed.

Lemma workflow_step_order_witness :
  exists rawIp,
    fst (main friendlyEnv initial) = Exited /\
    forallb (fun e => isOk (snd e)) (calls (snd (main friendlyEnv initial)))
      = true /\
    In (MachineSsh MOTHERSHIP_NODE_NAME ipCommand, Ok rawIp)
       (calls (snd (main friendlyEnv initial))) /\
    map fst (calls (snd (main friendlyEnv initial))) =
      expectedCalls (enteredToken friendlyEnv) (trim rawIp)
        (composeTemplate (toStringHex (bytesFrom friendlyEnv 0 256))
           (enteredDomain friendlyEnv) (trim rawIp)).
Proof.
  apply (proj2 (workflow_step_order friendlyEnv)).
  exact friendlyEnv_answers.
Defined.

(** C5: in every environment, every call the workflow issues is either a
    provider call or local command that concerns host A only, or a command
    run in a session on host A; so every call that touches host B is a
    command run in a session on host A.  Host B is created and asked for
    its address by such commands, with docker-machine's command line as the
    payload, and the removal of host B between attempts is one too. *)
Theorem swarm_manager_only_through_mothership :
  forall E : Env,
    forallb throughMothership (map fst (calls (snd (main E initial)))) = true /\
    forallb (fun c => implb (touchesSwarmManager c) (onMothership c))
      (map fst (calls (snd (main E initial)))) = true /\
    (forall err w,
       calls (snd (removeSwarmManager E (DockerMachine MOTHERSHIP_NODE_NAME)
                     err w)) =
       calls w ++
       [(MachineSsh MOTHERSHIP_NODE_NAME
           ("docker-machine rm -y " +++ SWARM_MANAGER_NODE_NAME),
         respond E (calls w)
           (MachineSsh MOTHERSHIP_NODE_NAME
              ("docker-machine rm -y " +++ SWARM_MANAGER_NODE_NAME)))]) /\
    ((forall h c, exists r, respond E h c = Ok r) ->
     In (MachineSsh MOTHERSHIP_NODE_NAME
           ("docker-machine create --driver digitalocean --digitalocean-access-token "
            +++ enteredToken E +++ " " +++ SWARM_MANAGER_NODE_NAME))
        (map fst (calls (snd (main E initial)))) /\
     In (MachineSsh MOTHERSHIP_NODE_NAME
           ("docker-machine ip " +++ SWARM_MANAGER_NODE_NAME))
        (map fst (calls (snd (main E initial))))).
Proof.
  intros E.
  assert (Hthrough :
            forallb throughMothership
              (map fst (calls (snd (main E initial)))) = true).
  { destruct (main_through_mothership E initial) as (l & Hcalls & Hall).
    cbn [calls initial app] in Hcalls. rewrite Hcalls. exact Hall. }
  split; [exact Hthrough |]. split; [| split].
  - rewrite forallb_forall in Hthrough. apply forallb_forall.
    intros c Hc. apply through_mothership_touch, Hthrough, Hc.
  - intros err w. rewrite removeSwarmManager_run. reflexivity.
  - intros Hok. apply (main_when_nothing_fails E Hok).
    intros rawIp w Hcalls _ _. cbn [snd]. rewrite Hcalls.
    unfold expectedCalls. split.
    + do 5 right. left. reflexivity.
    + do 6 right. left. reflexivity.
Qed.

Lemma swarm_manager_only_through_mothership_witness :
  In (MachineSsh MOTHERSHIP_NODE_NAME
        ("docker-machine create --driver digitalocean --digitalocean-access-token "
         +++ enteredToken friendlyEnv +++ " " +++ SWARM_MANAGER_NODE_NAME))
     (map fst (calls (snd (main friendlyEnv initial)))) /\
  In (MachineSsh MOTHERSHIP_NODE_NAME
        ("docker-machine ip " +++ SWARM_MANAGER_NODE_NAME))
     (map fst (calls (snd (main friendlyEnv initial)))).
Proof.
  apply (proj2 (proj2 (proj2
           (swarm_manager_only_through_mothership friendlyEnv)))).
  exact friendlyEnv_answers.
Defined.

(** ** The deployment descriptor *)

Lemma append_assoc (a b c : string) : (a +++ b) +++ c = a +++ b +++ c.
Proof. induction a as [| x a IH]; cbn; [reflexivity | rewrite IH; reflexivity]. Qed.

Lemma list_ascii_of_string_app (a b : string) :
  list_ascii_of_string (a +++ b) =
  list_ascii_of_string a ++ list_ascii_of_string b.
Proof. induction a as [| x a IH]; cbn; [reflexivity | rewrite IH; reflexivity]. Qed.

Lemma unhexByte_hexOfByte (b : Byte.byte) :
  match hexOfByte b with
  | String hi (String lo EmptyString) => unhexByte hi lo = Some b
  | _ => False
  end.
Proof. destruct b; vm_compute; reflexivity. Qed.

Lemma hexOfByte_lower (b : Byte.byte) :
  forallb isLowerHex (list_ascii_of_string (hexOfByte b)) = true.
Proof. destruct b; vm_compute; reflexivity. Qed.

Lemma hexOfByte_inj (a b : Byte.byte) : hexOfByte a = hexOfByte b -> a = b.
Proof.
  intros H. pose proof (unhexByte_hexOfByte a) as Ha.
  pose proof (unhexByte_hexOfByte b) as Hb. rewrite H in Ha.
  destruct (hexOfByte b) as [| hi [| lo [| ? ?]]]; try contradiction.
  congruence.
Qed.

Lemma toStringHex_cons (b : Byte.byte) (rest : list Byte.byte) :
  exists hi lo,
    hexOfByte b = String hi (String lo EmptyString) /\
    toStringHex (b :: rest) = String hi (String lo (toStringHex rest)).
Proof.
  cbn [toStringHex]. unfold hexOfByte. do 2 eexists. split; reflexivity.
Qed.

Lemma toStringHex_inj (x y : list Byte.byte) :
  toStringHex x = toStringHex y -> x = y.
Proof.
  revert y. induction x as [| a x IH]; intros [| b y] H.
  - reflexivity.
  - destruct (toStringHex_cons b y) as (hi & lo & _ & Hy).
    rewrite Hy in H. discriminate H.
  - destruct (toStringHex_cons a x) as (hi & lo & _ & Hx).
    rewrite Hx in H. discriminate H.
  - destruct (toStringHex_cons a x) as (hi & lo & Ha & Hx).
    destruct (toStringHex_cons b y) as (hi' & lo' & Hb & Hy).
    rewrite Hx, Hy in H. injection H as -> -> Hrest.
    f_equal; [apply hexOfByte_inj; congruence | apply IH, Hrest].
Qed.

Lemma toStringHex_length (x : list Byte.byte) :
  String.length (toStringHex x) = 2 * List.length x.
Proof.
  induction x as [| a x IH]; [reflexivity |].
  destruct (toStringHex_cons a x) as (hi & lo & _ & Hx).
  rewrite Hx. cbn [String.length List.length]. rewrite IH. lia.
Qed.

Lemma toStringHex_lower (x : list Byte.byte) :
  forallb isLowerHex (list_ascii_of_string (toStringHex x)) = true.
Proof.
  induction x as [| a x IH]; [reflexivity |].
  cbn [toStringHex]. rewrite list_ascii_of_string_app, forallb_app.
  rewrite hexOfByte_lower, IH. reflexivity.
Qed.

Lemma bytesFrom_length (E : Env) (from size : nat) :
  List.length (bytesFrom E from size) = size.
Proof. unfold bytesFrom. rewrite length_map, length_seq. reflexivity. Qed.

Lemma bytesFrom_nth (E : Env) (from size i : nat) :
  i < size ->
  nth i (bytesFrom E from size) Byte.x00 = entropy E (from + i).
Proof.
  intros Hi. unfold bytesFrom.
  rewrite (nth_indep _ Byte.x00 (entropy E (from + 0)))
    by (rewrite length_map, length_seq; exact Hi).
  rewrite (map_nth (fun i => entropy E (from + i)) (seq 0 size) 0 i).
  rewrite seq_nth by exact Hi. reflexivity.
Qed.

(** C6: two calls of [dockerComposeContent] with the same domain and peer
    address return documents with the same text before and after the
    secret.  Each secret is the lower-case hex encoding, 512 digits long,
    of 256 bytes read from the random source, the second call reading the
    256 bytes that follow those of the first; the encoding loses nothing,
    so the two secrets are equal only if the two draws are. *)
Theorem compose_content_differs_only_in_secret :
  forall (E : Env) (domain swarmManagerIp : string) (w : World),
    let first := dockerComposeContent E domain swarmManagerIp w in
    let second := dockerComposeContent E domain swarmManagerIp (snd first) in
    let draw1 := bytesFrom E (drawn w) 256 in
    let draw2 := bytesFrom E (drawn w + 256) 256 in
    let after :=
      composeAfterSecret +++ domain +++ composeAfterDomain +++
      SWARM_MANAGER_NODE_NAME +++ composeAfterName +++ swarmManagerIp +++
      composeTail in
    fst first = Fulfilled (composeHead +++ toStringHex draw1 +++ after) /\
    fst second = Fulfilled (composeHead +++ toStringHex draw2 +++ after) /\
    List.length draw1 = 256 /\ List.length draw2 = 256 /\
    (forall i, i < 256 ->
       nth i draw1 Byte.x00 = entropy E (drawn w + i) /\
       nth i draw2 Byte.x00 = entropy E (drawn w + 256 + i)) /\
    String.length (toStringHex draw1) = 512 /\
    String.length (toStringHex draw2) = 512 /\
    forallb isLowerHex (list_ascii_of_string (toStringHex draw1)) = true /\
    forallb isLowerHex (list_ascii_of_string (toStringHex draw2)) = true /\
    (toStringHex draw1 = toStringHex draw2 <-> draw1 = draw2).
Proof.
  intros E domain swarmManagerIp w first second draw1 draw2 after.
  split; [reflexivity |]. split; [reflexivity |].
  split; [apply bytesFrom_length |]. split; [apply bytesFrom_length |].
  split.
  { intros i Hi. split; [apply bytesFrom_nth, Hi |].
    apply bytesFrom_nth, Hi. }
  split.
  { unfold draw1. rewrite toStringHex_length, bytesFrom_length. reflexivity. }
  split.
  { unfold draw2. rewrite toStringHex_length, bytesFrom_length. reflexivity. }
  split; [apply toStringHex_lower |]. split; [apply toStringHex_lower |].
  split; [apply toStringHex_inj | intros ->; reflexivity].
Qed.

(** ** The descriptor on host A *)

Lemma string_of_list_ascii_app (a b : list ascii) :
  string_of_list_ascii (a ++ b) =
  string_of_list_ascii a +++ string_of_list_ascii b.
Proof. induction a as [| x a IH]; cbn; [reflexivity | rewrite IH; reflexivity]. Qed.

Lemma literalInQuotes_app (a b : string) :
  literalInQuotes (a +++ b) = literalInQuotes a && literalInQuotes b.
Proof.
  unfold literalInQuotes. rewrite list_ascii_of_string_app. apply forallb_app.
Qed.

Lemma lowerHex_literalInQuotes (s : string) :
  forallb isLowerHex (list_ascii_of_string s) = true ->
  literalInQuotes s = true.
Proof.
  unfold literalInQuotes. induction s as [| c s IH]; [reflexivity |].
  cbn [list_ascii_of_string forallb]. intros H.
  apply andb_true_iff in H. destruct H as [Hc Hs].
  rewrite (IH Hs), andb_true_r.
  destruct c as [[] [] [] [] [] [] [] []]; try discriminate Hc; reflexivity.
Qed.

(** The text of the descriptor up to the port mappings has no character
    that double quotes treat specially, provided the domain and the address
    have none. *)
Lemma composeTemplate_literal (E : Env) (domain ip : string) :
  literalInQuotes domain = true -> literalInQuotes ip = true ->
  literalInQuotes
    (composeHead +++ toStringHex (bytesFrom E 0 256) +++
     composeAfterSecret +++ domain +++ composeAfterDomain +++
     SWARM_MANAGER_NODE_NAME +++ composeAfterName +++ ip) = true.
Proof.
  intros Hd Hi. rewrite !literalInQuotes_app, Hd, Hi.
  rewrite (lowerHex_literalInQuotes _ (toStringHex_lower _)).
  reflexivity.
Qed.

Lemma composeTemplate_split (secret domain ip : string) :
  composeTemplate secret domain ip =
  (composeHead +++ secret +++ composeAfterSecret +++ domain +++
   composeAfterDomain +++ SWARM_MANAGER_NODE_NAME +++ composeAfterName +++
   ip) +++ composeTail.
Proof. unfold composeTemplate. rewrite !append_assoc. reflexivity. Qed.

(** Inside double quotes a literal text is read as it is. *)
Lemma lex_literal (s : string) (rest : list ascii) :
  literalInQuotes s = true ->
  lex (list_ascii_of_string s ++ rest) DoubleQuoted true =
  match lex rest DoubleQuoted true with
  | Read w ts => Read (s +++ w) ts
  | other => other
  end.
Proof.
  unfold literalInQuotes. induction s as [| c s IH].
  - intros _. cbn [list_ascii_of_string app String.append].
    destruct (lex rest DoubleQuoted true); reflexivity.
  - cbn [list_ascii_of_string forallb app]. intros H.
    apply andb_true_iff in H. destruct H as [Hc Hs].
    unfold isLiteralInQuotes in Hc. apply negb_true_iff in Hc.
    apply orb_false_iff in Hc. destruct Hc as [Hq Hx].
    cbn [lex]. rewrite Hq, Hx, (IH Hs).
    destruct (lex rest DoubleQuoted true); reflexivity.
Qed.

Lemma withoutQuotes_app (a b : string) :
  withoutQuotes (a +++ b) = withoutQuotes a +++ withoutQuotes b.
Proof.
  unfold withoutQuotes.
  rewrite list_ascii_of_string_app, filter_app. apply string_of_list_ascii_app.
Qed.

Lemma withoutQuotes_literal (s : string) :
  literalInQuotes s = true -> withoutQuotes s = s.
Proof.
  unfold literalInQuotes, withoutQuotes. induction s as [| c s IH];
    [reflexivity |].
  cbn [list_ascii_of_string forallb filter]. intros H.
  apply andb_true_iff in H. destruct H as [Hc Hs].
  unfold isLiteralInQuotes in Hc. apply negb_true_iff in Hc.
  apply orb_false_iff in Hc. destruct Hc as [Hq _]. rewrite Hq.
  cbn [negb string_of_list_ascii]. rewrite (IH Hs). reflexivity.
Qed.

(** The end of the command line, from the port mappings on. *)
Lemma lex_composeTail :
  lex (list_ascii_of_string
         (composeTail +++ dq +++ " >> docker-compose.yml"))
      DoubleQuoted true =
  Read (withoutQuotes composeTail)
    [Operator Append; Word "docker-compose.yml"].
Proof. vm_compute. reflexivity. Qed.

Lemma lex_echo (rest : list ascii) :
  lex (list_ascii_of_string "echo " ++ list_ascii_of_string dq ++ rest)
    Unquoted false =
  match lex rest DoubleQuoted true with
  | Read w ts => Read EmptyString (Word "echo" :: Word w :: ts)
  | other => other
  end.
Proof.
  change (list_ascii_of_string "echo " ++ list_ascii_of_string dq ++ rest)
    with ("e" :: "c" :: "h" :: "o" :: " " :: "034" :: rest)%char.
  cbn. destruct (lex rest DoubleQuoted true); reflexivity.
Qed.

Lemma lex_writeComposeCommand (E : Env) (domain ip : string) :
  literalInQuotes domain = true -> literalInQuotes ip = true ->
  let content :=
    composeTemplate (toStringHex (bytesFrom E 0 256)) domain ip in
  lex (list_ascii_of_string (writeComposeCommand content)) Unquoted false =
  Read EmptyString
    [Word "echo"; Word (withoutQuotes content); Operator Append;
     Word "docker-compose.yml"].
Proof.
  intros Hd Hi content.
  pose proof (composeTemplate_literal E domain ip Hd Hi) as Hlit.
  unfold content, writeComposeCommand.
  rewrite (composeTemplate_split _ domain ip).
  set (before := composeHead +++ _) in *.
  rewrite withoutQuotes_app, (withoutQuotes_literal before Hlit).
  rewrite (append_assoc before composeTail).
  rewrite (list_ascii_of_string_app "echo "), (list_ascii_of_string_app dq),
    (list_ascii_of_string_app before).
  rewrite lex_echo, (lex_literal before _ Hlit), lex_composeTail.
  reflexivity.
Qed.

Lemma sh_writeComposeCommand (E : Env) (domain ip : string) :
  literalInQuotes domain = true -> literalInQuotes ip = true ->
  let content :=
    composeTemplate (toStringHex (bytesFrom E 0 256)) domain ip in
  sh (writeComposeCommand content) =
  Redirected Append "docker-compose.yml" (withoutQuotes content +++ nl).
Proof.
  intros Hd Hi content. subst content. unfold sh.
  rewrite (lex_writeComposeCommand E domain ip Hd Hi).
  set (content := composeTemplate _ domain ip).
  cbn [String.eqb Ascii.eqb Bool.eqb redirected].
  assert (Hhead : exists w, withoutQuotes composeHead = String "v" w)
    by (eexists; vm_compute; reflexivity).
  assert (Hv : exists w, withoutQuotes content = String "v" w).
  { destruct Hhead as [w Hw]. unfold content, composeTemplate.
    rewrite withoutQuotes_app, Hw. eexists. reflexivity. }
  destruct Hv as [w Hw]. rewrite Hw. reflexivity.
Qed.



Lemma friendlyEnv_address_literal (h : list Entry) (r : string) :
  respond friendlyEnv h (MachineSsh MOTHERSHIP_NODE_NAME ipCommand) = Ok r ->
  literalInQuotes (trim r) = true.
Proof. intros Hr. cbn in Hr. injection Hr as <-. vm_compute. reflexivity. Qed.


(** * Further properties of the script *)

(** ** The retry policy without a callback, and its bounds *)

Section RetryNoCallback.
Context {S T : Type}.
Variable fn : Async S T.
Variable n : Z.

Lemma attemptPromise_fails_then_no_callback :
  forall failures attempt s tr o s_end,
    fails_then fn None failures s o s_end ->
    (0 < failures -> (attempt + Z.of_nat failures <= n)%Z) ->
    (forall err, o = Rejected err -> n <= attempt + Z.of_nat failures)%Z ->
    exists tr',
      attemptPromise (traced_fn fn) None n attempt (s, tr) =
        (o, (s_end, tr ++ tr' ++ [Attempt o])) /\
      attempts tr' = failures /\
      compensations tr' = 0.
Proof.
  induction failures as [| k IH]; intros attempt s tr o s_end Hrun Hle Hge.
  - cbn in Hrun. exists []. repeat split.
    rewrite attemptPromise_eq, (traced_fn_run fn s tr o s_end Hrun).
    destruct o as [v | err | | |]; try reflexivity.
    specialize (Hge err eq_refl).
    destruct (Z.geb_spec attempt n); [reflexivity | lia].
  - cbn [fails_then] in Hrun.
    destruct Hrun as (err & s1 & s2 & Hfn & Hcb & Hrest).
    cbn in Hcb. injection Hcb as <-.
    assert (Hlt : (attempt + Z.of_nat (Datatypes.S k) <= n)%Z)
      by (apply Hle; lia).
    destruct (IH (attempt + 1)%Z s1 (tr ++ [Attempt (Rejected err)])
                o s_end Hrest) as (tr' & Heq & Hatt & Hcomp).
    + intros _. lia.
    + intros e He. specialize (Hge e He). lia.
    + exists (Attempt (Rejected err) :: tr'). split; [| split].
      * rewrite attemptPromise_eq, (traced_fn_run fn s tr _ _ Hfn).
        destruct (Z.geb_spec attempt n); [lia |].
        cbn [invokeCb ret].
        rewrite <- app_assoc in Heq. cbn [app] in Heq. exact Heq.
      * change (Attempt (Rejected err) :: tr')
          with ([@Attempt T (Rejected err)] ++ tr').
        rewrite attempts_app, Hatt. reflexivity.
      * change (Attempt (Rejected err) :: tr')
          with ([@Attempt T (Rejected err)] ++ tr').
        rewrite compensations_app, Hcomp. reflexivity.
Qed.

End RetryNoCallback.

(** X1: the failure callback is optional.  Without one the policy retries
    all the same: an action that is rejected k-1 times and whose k-th
    attempt, k <= maxTries, ends in some way (for a rejection, k is
    maxTries) gives the policy that ending after exactly k attempts. *)
Theorem retry_without_callback :
  forall (S T : Type) (fn : Async S T) (maxTries : option Z) (k : nat)
         (s : S) (o : Outcome T) (s_end : S),
    1 <= k ->
    (Z.of_nat k <= maxTriesOrDefault maxTries)%Z ->
    (forall err, o = Rejected err ->
                 (maxTriesOrDefault maxTries <= Z.of_nat k)%Z) ->
    fails_then fn None (k - 1) s o s_end ->
    exists tr,
      retryPromiseIfNeeded (traced_fn fn) None maxTries (s, []) =
        (o, (s_end, tr ++ [Attempt o])) /\
      attempts (tr ++ [Attempt o]) = k /\
      compensations (tr ++ [Attempt o]) = 0.
Proof.
  intros S T fn maxTries k s o s_end Hk Hkn Hlast Hrun.
  destruct (attemptPromise_fails_then_no_callback fn
              (maxTriesOrDefault maxTries) _ 1%Z s [] _ s_end Hrun)
    as (tr & Heq & Hatt & Hcomp).
  - intros _. lia.
  - intros err He. specialize (Hlast err He). lia.
  - exists tr. unfold retryPromiseIfNeeded. rewrite Heq. cbn [app].
    repeat split.
    + rewrite attempts_app, Hatt. cbn. lia.
    + rewrite compensations_app, Hcomp. reflexivity.
Qed.

Lemma retry_without_callback_witness :
  exists tr,
    retryPromiseIfNeeded (traced_fn (flaky 3)) None (Some 4%Z) (0, []) =
      (Fulfilled "up", (3, tr ++ [Attempt (Fulfilled "up")])) /\
    attempts (tr ++ [Attempt (Fulfilled "up")]) = 3 /\
    compensations (tr ++ [Attempt (Fulfilled "up")]) = 0.
Proof.
  apply (@retry_without_callback nat string (flaky 3) (Some 4%Z) 3 0
           (Fulfilled "up") 3).
  - lia.
  - simpl. lia.
  - intros err He. discriminate He.
  - simpl. exists "down", 1, 1. repeat split.
    exists "down", 2, 2. repeat split.
Defined.

Section RetryBounds.
Context {S T : Type}.
Variable fn : Async S T.
Variable cb : Error -> Async S unit.
Variable n : Z.

Lemma attemptPromise_bounds :
  forall (fuel : nat) (attempt : Z) (s : S) (tr : list (RetryEvent T)),
    Z.to_nat (n - attempt) <= fuel ->
    exists tr',
      snd (snd (attemptPromise (traced_fn fn) (Some (traced_cb cb)) n
                  attempt (s, tr))) = tr ++ tr' /\
      1 <= attempts tr' /\
      attempts tr' <= Datatypes.S fuel /\
      compensations tr' <= fuel /\
      compensations tr' <= attempts tr'.
Proof.
  induction fuel as [| fuel IH]; intros attempt s tr Hfuel;
    rewrite attemptPromise_eq;
    destruct (fn s) as [o s1] eqn:Hfn; rewrite (traced_fn_run fn s tr _ _ Hfn).
  - exists [Attempt o].
    destruct o as [v | err | | |]; try (cbn; repeat split; lia).
    destruct (Z.geb_spec attempt n); [| lia].
    cbn. repeat split; lia.
  - destruct o as [v | err | | |];
      try (eexists [Attempt _]; cbn; repeat split; lia).
    destruct (Z.geb_spec attempt n) as [Hge | Hlt].
    + exists [Attempt (Rejected err)]. cbn. repeat split; lia.
    + cbn [invokeCb].
      destruct (cb err s1) as [oc s2] eqn:Hcb.
      rewrite (traced_cb_run cb err s1 _ _ _ Hcb).
      destruct oc as [[] | e2 | | |];
        try (eexists [Attempt (Rejected err); Compensation err _];
             cbn; rewrite <- app_assoc; repeat split; lia).
      destruct (IH (attempt + 1)%Z s2
                  ((tr ++ [Attempt (Rejected err)]) ++
                   [Compensation err (Fulfilled tt)]))
        as (tr' & Heq & H1 & H2 & H3 & H4); [lia |].
      exists ([Attempt (Rejected err); Compensation err (Fulfilled tt)] ++ tr').
      rewrite attempts_app, compensations_app.
      change (attempts [Attempt (Rejected err);
                        @Compensation T err (Fulfilled tt)]) with 1.
      change (compensations [Attempt (Rejected err);
                             @Compensation T err (Fulfilled tt)]) with 1.
      split; [| lia].
      rewrite Heq, <- !app_assoc. reflexivity.
Qed.

End RetryBounds.

(** X2: whatever the action and the callback do, the policy invokes the
    action at least once and at most maxTries times (once when maxTries is
    below 1), and the callback fewer than maxTries times and never more
    often than the action. *)
Theorem retry_attempts_bounded :
  forall (S T : Type) (fn : Async S T) (cb : Error -> Async S unit)
         (maxTries : option Z) (s : S),
    let tr := snd (snd (retryPromiseIfNeeded (traced_fn fn)
                          (Some (traced_cb cb)) maxTries (s, []))) in
    1 <= attempts tr /\
    (Z.of_nat (attempts tr) <= Z.max 1 (maxTriesOrDefault maxTries))%Z /\
    (Z.of_nat (compensations tr) < Z.max 1 (maxTriesOrDefault maxTries))%Z /\
    compensations tr <= attempts tr.
Proof.
  intros S T fn cb maxTries s tr.
  destruct (@attemptPromise_bounds S T fn cb (maxTriesOrDefault maxTries)
              (Z.to_nat (maxTriesOrDefault maxTries - 1)) 1%Z s [])
    as (tr' & Heq & H1 & H2 & H3 & H4); [lia |].
  cbn [app] in Heq. subst tr. unfold retryPromiseIfNeeded. rewrite Heq.
  repeat split; lia.
Qed.

(** X3: a failure callback that does not return stops the policy for good.
    When an attempt that is not the last allowed one is rejected and the
    callback throws, calls process.exit or never returns, the action is not
    attempted again: the policy's promise stays pending (or the process has
    exited, or died of an uncaught exception), whatever later attempts
    would have done. *)
Theorem retry_callback_failure_stops_policy :
  forall (S T : Type) (fn : Async S T) (cb : Error -> Async S unit)
         (maxTries : option Z) (s s1 s2 : S) (err : Error)
         (o : Outcome unit),
    (1 < maxTriesOrDefault maxTries)%Z ->
    fn s = (Rejected err, s1) ->
    cb err s1 = (o, s2) ->
    fulfilled o = false ->
    retryPromiseIfNeeded (traced_fn fn) (Some (traced_cb cb)) maxTries
      (s, []) =
    (match o with
     | Exited => Exited
     | Crashed => Crashed
     | _ => Unsettled
     end,
     (s2, [Attempt (Rejected err); Compensation err o])).
Proof.
  intros S T fn cb maxTries s s1 s2 err o Hmax Hfn Hcb Ho.
  unfold retryPromiseIfNeeded.
  rewrite attemptPromise_eq, (traced_fn_run fn s [] _ _ Hfn).
  destruct (Z.geb_spec 1 (maxTriesOrDefault maxTries)); [lia |].
  cbn [invokeCb]. rewrite (traced_cb_run cb err s1 _ _ _ Hcb).
  destruct o as [[] | e | | |]; [discriminate Ho | | | |]; reflexivity.
Qed.

Lemma retry_callback_failure_stops_policy_witness :
  retryPromiseIfNeeded (traced_fn (flaky 2)) (Some (traced_cb throwingCb))
    (Some 3%Z) (0, []) =
  (Unsettled,
   (1, [Attempt (Rejected "down");
        Compensation "down" (Rejected "cleanup failed")])).
Proof.
  apply (@retry_callback_failure_stops_policy nat string (flaky 2) throwingCb
           (Some 3%Z) 0 1 1 "down" (Rejected "cleanup failed")).
  - simpl. lia.
  - reflexivity.
  - reflexivity.
  - reflexivity.
Defined.

(** X4: an attempt that neither fulfils nor rejects ends the policy.  When
    the action is rejected k-1 times and its k-th attempt, k <= maxTries,
    calls process.exit or returns a promise that never settles, the policy
    ends the same way after k attempts and k-1 callbacks, with no callback
    for that attempt. *)
Theorem retry_attempt_without_settlement :
  forall (S T : Type) (fn : Async S T) (cb : Error -> Async S unit)
         (maxTries : option Z) (k : nat) (s : S) (o : Outcome T) (s_end : S),
    1 <= k ->
    (Z.of_nat k <= maxTriesOrDefault maxTries)%Z ->
    o = Exited \/ o = Unsettled ->
    fails_then fn (Some cb) (k - 1) s o s_end ->
    exists tr,
      retryPromiseIfNeeded (traced_fn fn) (Some (traced_cb cb)) maxTries
        (s, []) = (o, (s_end, tr ++ [Attempt o])) /\
      attempts (tr ++ [Attempt o]) = k /\
      compensations (tr ++ [Attempt o]) = k - 1.
Proof.
  intros S T fn cb maxTries k s o s_end Hk Hkn Ho Hrun.
  destruct (attemptPromise_fails_then fn cb (maxTriesOrDefault maxTries)
              _ 1%Z s [] _ s_end Hrun) as (tr & Heq & Hatt & Hcomp).
  - intros _. lia.
  - intros err He. destruct Ho as [-> | ->]; discriminate He.
  - exists tr. unfold retryPromiseIfNeeded. rewrite Heq. cbn [app].
    repeat split.
    + rewrite attempts_app, Hatt. cbn. lia.
    + rewrite compensations_app, Hcomp. cbn. lia.
Qed.

Lemma retry_attempt_without_settlement_witness :
  exists tr,
    retryPromiseIfNeeded (traced_fn (stalling 2)) (Some (traced_cb quietCb))
      None (0, []) = (Unsettled, (2, tr ++ [Attempt Unsettled])) /\
    attempts (tr ++ [Attempt Unsettled]) = 2 /\
    compensations (tr ++ [@Attempt string Unsettled]) = 2 - 1.
Proof.
  apply (@retry_attempt_without_settlement nat string (stalling 2) quietCb
           None 2 0 Unsettled 2).
  - lia.
  - simpl. lia.
  - right. reflexivity.
  - simpl. exists "down", 1, 1. repeat split.
Defined.

(** ** White space around the address *)

Lemma trim_blank (s : string) : isBlank s = true -> trim s = EmptyString.
Proof.
  unfold trim, isBlank. induction s as [| c s IH]; [reflexivity |].
  cbn [list_ascii_of_string forallb trimStart]. intros H.
  apply andb_true_iff in H. destruct H as [Hc Hs]. rewrite Hc. exact (IH Hs).
Qed.

Lemma append_empty (s : string) : s +++ EmptyString = s.
Proof.
  induction s as [| c s IH]; [reflexivity |]. cbn. rewrite IH. reflexivity.
Qed.

Lemma isWhiteSpace_not_printable (c : ascii) :
  isWhiteSpace c = true -> isPrintable c = false.
Proof.
  unfold isWhiteSpace, isPrintable.
  destruct (nat_of_ascii c) as [| n]; [reflexivity |].
  do 32 (destruct n as [| n]; [intros _; reflexivity || discriminate |]).
  destruct n; discriminate.
Qed.

Lemma printable_not_white (c : ascii) :
  isPrintable c = true ->
  isWhiteSpace c = false /\
  (forall c1, isWhiteSpace2 c c1 = false) /\
  (forall c1 c2, isWhiteSpace3 c c1 c2 = false).
Proof.
  intros Hc. split; [| split].
  - destruct (isWhiteSpace c) eqn:Hw; [| reflexivity].
    rewrite (isWhiteSpace_not_printable c Hw) in Hc. discriminate Hc.
  - intros c1. unfold isWhiteSpace2, isPrintable in *.
    apply andb_true_iff in Hc. destruct Hc as [_ Hc]. apply Nat.leb_le in Hc.
    destruct (Nat.eqb_spec (nat_of_ascii c) 194); [lia | reflexivity].
  - intros c1 c2. unfold isWhiteSpace3, isPrintable in *.
    apply andb_true_iff in Hc. destruct Hc as [_ Hc]. apply Nat.leb_le in Hc.
    cbv zeta.
    destruct (Nat.eqb_spec (nat_of_ascii c) 225); [lia |].
    destruct (Nat.eqb_spec (nat_of_ascii c) 226); [lia |].
    destruct (Nat.eqb_spec (nat_of_ascii c) 227); [lia |].
    destruct (Nat.eqb_spec (nat_of_ascii c) 239); [lia |].
    reflexivity.
Qed.

Lemma wide_not_printable (c0 c1 c2 : ascii) :
  (isWhiteSpace2 c0 c1 = true ->
   isPrintable c0 = false /\ isPrintable c1 = false) /\
  (isWhiteSpace3 c0 c1 c2 = true ->
   isPrintable c0 = false /\ isPrintable c1 = false /\
   isPrintable c2 = false).
Proof.
  assert (Hhigh : forall c, 128 <= nat_of_ascii c -> isPrintable c = false).
  { intros c Hc. unfold isPrintable. apply andb_false_iff. right.
    apply Nat.leb_gt. lia. }
  split; intros H.
  - unfold isWhiteSpace2 in H. apply andb_true_iff in H.
    destruct H as [H0 H1]. apply Nat.eqb_eq in H0, H1.
    split; apply Hhigh; lia.
  - unfold isWhiteSpace3 in H. cbv zeta in H.
    repeat match type of H with
           | (_ || _)%bool = true =>
               apply orb_true_iff in H; destruct H as [H | H]
           end;
      repeat match goal with
             | Hx : (_ && _)%bool = true |- _ =>
                 apply andb_true_iff in Hx; destruct Hx
             | Hx : (_ || _)%bool = true |- _ =>
                 apply orb_true_iff in Hx; destruct Hx
             | Hx : (_ =? _)%nat = true |- _ => apply Nat.eqb_eq in Hx
             | Hx : (_ <=? _)%nat = true |- _ => apply Nat.leb_le in Hx
             end;
      repeat split; apply Hhigh; lia.
Qed.




(** A text that [trimStart] removes altogether has no printable character. *)
Lemma trimStart_all_no_printable :
  forall (n : nat) (s : string),
    String.length s <= n ->
    trimStart s = EmptyString ->
    existsb isPrintable (list_ascii_of_string s) = false.
Proof.
  induction n as [| n IH]; intros s Hlen Hs.
  - destruct s; [reflexivity | cbn in Hlen; lia].
  - destruct s as [| c0 rest0]; [reflexivity |].
    cbn [trimStart] in Hs. cbn [String.length] in Hlen.
    destruct (isWhiteSpace c0) eqn:H0.
    { cbn [list_ascii_of_string existsb].
      rewrite (isWhiteSpace_not_printable c0 H0).
      apply IH; [lia | exact Hs]. }
    destruct rest0 as [| c1 rest1]; [discriminate Hs |].
    cbn [String.length] in Hlen.
    destruct (isWhiteSpace2 c0 c1) eqn:H1.
    { destruct (proj1 (wide_not_printable c0 c1 c1) H1) as [P0 P1].
      cbn [list_ascii_of_string existsb]. rewrite P0, P1.
      apply IH; [lia | exact Hs]. }
    destruct rest1 as [| c2 rest2]; [discriminate Hs |].
    cbn [String.length] in Hlen.
    destruct (isWhiteSpace3 c0 c1 c2) eqn:H2; [| discriminate Hs].
    destruct (proj2 (wide_not_printable c0 c1 c2) H2) as (P0 & P1 & P2).
    cbn [list_ascii_of_string existsb]. rewrite P0, P1, P2.
    apply IH; [lia | exact Hs].
Qed.

Lemma trimStart_blank_app (before s : string) :
  isBlank before = true -> trimStart (before +++ s) = trimStart s.
Proof.
  unfold isBlank. induction before as [| c before IH]; [reflexivity |].
  cbn [list_ascii_of_string forallb]. intros H.
  apply andb_true_iff in H. destruct H as [Hc Hb].
  change (String c before +++ s) with (String c (before +++ s)).
  cbn [trimStart]. rewrite Hc. exact (IH Hb).
Qed.

Lemma trimStart_printable (s : string) :
  startsPrintable s = true -> trimStart s = s.
Proof.
  destruct s as [| c0 rest0]; [discriminate |].
  cbn [startsPrintable]. intros Hc.
  destruct (printable_not_white c0 Hc) as (H0 & H1 & H2).
  cbn [trimStart]. rewrite H0.
  destruct rest0 as [| c1 rest1]; [reflexivity |]. rewrite H1.
  destruct rest1 as [| c2 rest2]; [reflexivity |]. rewrite H2. reflexivity.
Qed.

Lemma endsPrintable_exists (s after : string) :
  endsPrintable s = true ->
  existsb isPrintable (list_ascii_of_string (s +++ after)) = true.
Proof.
  induction s as [| c s IH]; [discriminate |].
  change (String c s +++ after) with (String c (s +++ after)).
  cbn [list_ascii_of_string existsb]. intros H.
  destruct s as [| c' s'].
  - cbn [endsPrintable] in H. rewrite H. reflexivity.
  - rewrite IH; [apply orb_true_r | exact H].
Qed.

Lemma trimEnd_blank (s : string) : isBlank s = true -> trimEnd s = EmptyString.
Proof.
  intros H. destruct s as [| c rest]; [reflexivity |].
  cbn [trimEnd].
  destruct (trimStart (String c rest)) as [| c' kept] eqn:Hs; [reflexivity |].
  pose proof (trimStart_blank_app (String c rest) EmptyString H) as Happ.
  rewrite append_empty, Hs in Happ. discriminate Happ.
Qed.

Lemma trimEnd_keeps (s after : string) :
  endsPrintable s = true -> isBlank after = true ->
  trimEnd (s +++ after) = s.
Proof.
  intros Hs Hafter. induction s as [| c s IH]; [discriminate |].
  change (String c s +++ after) with (String c (s +++ after)).
  cbn [trimEnd].
  destruct (trimStart (String c (s +++ after))) as [| c' kept] eqn:Hstart.
  - apply (trimStart_all_no_printable _ _ (le_n _)) in Hstart.
    change (String c (s +++ after)) with (String c s +++ after) in Hstart.
    rewrite (endsPrintable_exists _ after Hs) in Hstart. discriminate Hstart.
  - f_equal. destruct s as [| c1 s1].
    + apply trimEnd_blank, Hafter.
    + apply IH. exact Hs.
Qed.

(** [trim] removes the white space around a text and nothing of the text. *)
Lemma trim_keeps (before s after : string) :
  isBlank before = true -> isBlank after = true ->
  startsPrintable s = true -> endsPrintable s = true ->
  trim (before +++ s +++ after) = s.
Proof.
  intros Hb Ha Hs He. unfold trim.
  rewrite (trimStart_blank_app before _ Hb).
  rewrite trimStart_printable.
  - apply trimEnd_keeps; assumption.
  - destruct s; [discriminate Hs | exact Hs].
Qed.

(** ** Runs that stop at a step *)

Ltac different_call :=
  let H := fresh in
  intro H;
  first
    [ discriminate H
    | injection H as H; apply (f_equal firstChar) in H;
      cbv in H; discriminate H ].

(** One call that succeeds because it is not the one that fails. *)
Ltac call_succeeds_unless E ok :=
  expose;
  match goal with
  | |- context [external E ?c ?w0] =>
      let r := fresh "r" in
      let Hr := fresh "Hr" in
      destruct (ok (calls w0) c ltac:(different_call)) as [r Hr];
      rewrite (external_ok E c w0 r Hr); clear Hr
  | |- context [getMachineIp E ?name ?w0] =>
      let r := fresh "r" in
      let Hr := fresh "Hr" in
      destruct (ok (calls w0) (MachineInspect name) ltac:(different_call))
        as [r Hr];
      rewrite (getMachineIp_ok E name w0 r Hr); clear Hr
  end;
  cbv iota beta; run_pure; normal_world.

Section ToolingFails.
Variable E : Env.
Hypothesis others_ok :
  forall h c,
    c <> MachineSsh MOTHERSHIP_NODE_NAME installComposeCommand ->
    exists r, respond E h c = Ok r.
Hypothesis install_fails :
  forall h, exists err,
    respond E h (MachineSsh MOTHERSHIP_NODE_NAME installComposeCommand) =
    Failed err.

Lemma main_when_tooling_fails (P : Outcome unit * World -> Prop) :
  (forall err r1 r2,
     P (Rejected err,
        mkWorld
          [(MachineCreate MOTHERSHIP_NODE_NAME "digitalocean" (enteredToken E),
            Ok r1);
           (MachineInspect MOTHERSHIP_NODE_NAME, Ok r2);
           (MachineSsh MOTHERSHIP_NODE_NAME installComposeCommand, Failed err)]
          (bannerShown ++
           [SpinnerSucceed
              "Creating droplet for Mothership (this may take a few moments)...";
            SpinnerSucceed "Getting IP address of Mothership node...";
            SpinnerStart "Logging into Mothership droplet...";
            SpinnerSucceed "Logging into Mothership droplet...";
            SpinnerStart "Installing docker-compose..."])
          0)) ->
  P (main E initial).
Proof.
  intros HP.
  unfold main, sshMachine, createDockerMachine.
  run_pure. expose.
  unfold retryPromiseIfNeeded. cbn [maxTriesOrDefault].
  rewrite attemptPromise_eq.
  do 2 call_succeeds_unless E others_ok.
  expose.
  match goal with
  | |- context [external E ?c ?w0] =>
      destruct (install_fails (calls w0)) as [err Herr];
      rewrite (external_failed E c w0 err Herr); clear Herr
  end.
  cbv iota beta. normal_world. unfold ora, DockerMachine.
  apply HP.
Qed.

End ToolingFails.

(** X5: when the installation of docker-compose on host A fails and every
    other call succeeds, [main] is rejected with that error right there:
    the only calls are the creation of host A, its inspection and the
    failed download, none of them touches host B, and the operator is told
    nothing: the spinner of the step is left running, no spinner is marked
    failed and no message is printed. *)
Theorem tooling_failure_halts_before_swarm_manager :
  forall E : Env,
    (forall h c,
        c <> MachineSsh MOTHERSHIP_NODE_NAME installComposeCommand ->
        exists r, respond E h c = Ok r) ->
    (forall h, exists err,
        respond E h (MachineSsh MOTHERSHIP_NODE_NAME installComposeCommand) =
        Failed err) ->
    exists err,
      fst (main E initial) = Rejected err /\
      map fst (calls (snd (main E initial))) =
        [MachineCreate MOTHERSHIP_NODE_NAME "digitalocean" (enteredToken E);
         MachineInspect MOTHERSHIP_NODE_NAME;
         MachineSsh MOTHERSHIP_NODE_NAME installComposeCommand] /\
      In (MachineSsh MOTHERSHIP_NODE_NAME installComposeCommand, Failed err)
         (calls (snd (main E initial))) /\
      forallb (fun c => negb (touchesSwarmManager c))
        (map fst (calls (snd (main E initial)))) = true /\
      last (console (snd (main E initial))) ConsoleClear =
        SpinnerStart "Installing docker-compose..." /\
      forallb (fun o => negb (isSpinnerFail o))
        (console (snd (main E initial))) = true.
Proof.
  intros E Hok Hfail. apply (main_when_tooling_fails E Hok Hfail).
  intros err r1 r2. exists err.
  cbn [fst snd calls console map].
  split; [reflexivity |]. split; [reflexivity |].
  split; [do 2 right; left; reflexivity |].
  split; [reflexivity |]. split; reflexivity.
Qed.

Lemma toolingFailsEnv_others (h : list Entry) (c : Call) :
  c <> MachineSsh MOTHERSHIP_NODE_NAME installComposeCommand ->
  exists r, respond toolingFailsEnv h c = Ok r.
Proof.
  intros Hc.
  destruct c as [name driver token | name | name command | command];
    cbn [respond toolingFailsEnv friendlyEnv];
    try (eexists; reflexivity).
  destruct (String.eqb name MOTHERSHIP_NODE_NAME) eqn:Hname;
    destruct (String.eqb command installComposeCommand) eqn:Hcmd;
    cbn [andb];
    try (destruct (String.eqb command ipCommand); eexists; reflexivity).
  apply String.eqb_eq in Hname, Hcmd. subst. contradiction Hc. reflexivity.
Qed.

Lemma tooling_failure_halts_before_swarm_manager_witness :
  exists err,
    fst (main toolingFailsEnv initial) = Rejected err /\
    map fst (calls (snd (main toolingFailsEnv initial))) =
      [MachineCreate MOTHERSHIP_NODE_NAME "digitalocean"
         (enteredToken toolingFailsEnv);
       MachineInspect MOTHERSHIP_NODE_NAME;
       MachineSsh MOTHERSHIP_NODE_NAME installComposeCommand] /\
    In (MachineSsh MOTHERSHIP_NODE_NAME installComposeCommand, Failed err)
       (calls (snd (main toolingFailsEnv initial))) /\
    forallb (fun c => negb (touchesSwarmManager c))
      (map fst (calls (snd (main toolingFailsEnv initial)))) = true /\
    last (console (snd (main toolingFailsEnv initial))) ConsoleClear =
      SpinnerStart "Installing docker-compose..." /\
    forallb (fun o => negb (isSpinnerFail o))
      (console (snd (main toolingFailsEnv initial))) = true.
Proof.
  apply (tooling_failure_halts_before_swarm_manager toolingFailsEnv).
  - exact toolingFailsEnv_others.
  - intros h. eexists. reflexivity.
Defined.

(** One failed attempt at creating host B, and the removal after it. *)
Ltac swarm_creation_fails_once E create_fails :=
  rewrite attemptPromise_eq; expose;
  match goal with
  | |- context [external E ?c ?w0] =>
      let e := fresh "e" in
      let He := fresh "He" in
      destruct (create_fails (calls w0)) as [e He];
      rewrite (external_failed E c w0 e He); clear He
  end;
  cbv iota beta; eval_geb; cbv iota; normal_world.

Section SwarmManagerNeverCreated.
Variable E : Env.
Hypothesis others_ok :
  forall h c,
    c <> MachineSsh MOTHERSHIP_NODE_NAME (createSwarmCommand (enteredToken E)) ->
    exists r, respond E h c = Ok r.
Hypothesis create_fails :
  forall h, exists err,
    respond E h
      (MachineSsh MOTHERSHIP_NODE_NAME (createSwarmCommand (enteredToken E))) =
    Failed err.

Lemma main_when_swarm_creation_fails (P : Outcome unit * World -> Prop) :
  (forall w : World,
     map fst (calls w) =
       [MachineCreate MOTHERSHIP_NODE_NAME "digitalocean" (enteredToken E);
        MachineInspect MOTHERSHIP_NODE_NAME;
        MachineSsh MOTHERSHIP_NODE_NAME installComposeCommand;
        MachineSsh MOTHERSHIP_NODE_NAME chmodComposeCommand;
        MachineSsh MOTHERSHIP_NODE_NAME installMachineCommand;
        MachineSsh MOTHERSHIP_NODE_NAME (createSwarmCommand (enteredToken E));
        MachineSsh MOTHERSHIP_NODE_NAME (rmCommand SWARM_MANAGER_NODE_NAME);
        MachineSsh MOTHERSHIP_NODE_NAME (createSwarmCommand (enteredToken E));
        MachineSsh MOTHERSHIP_NODE_NAME (rmCommand SWARM_MANAGER_NODE_NAME);
        MachineSsh MOTHERSHIP_NODE_NAME (createSwarmCommand (enteredToken E));
        MachineSsh MOTHERSHIP_NODE_NAME (rmCommand SWARM_MANAGER_NODE_NAME);
        MachineSsh MOTHERSHIP_NODE_NAME (createSwarmCommand (enteredToken E));
        MachineSsh MOTHERSHIP_NODE_NAME (rmCommand SWARM_MANAGER_NODE_NAME);
        MachineSsh MOTHERSHIP_NODE_NAME (createSwarmCommand (enteredToken E))] ->
     last (removelast (console w)) ConsoleClear =
       SpinnerFail "Creating droplet for Mothership swarm manager..." ->
     last (console w) ConsoleClear = ConsoleLog createFailedMessage ->
     drawn w = 0 ->
     P (Exited, w)) ->
  P (main E initial).
Proof.
  intros HP.
  unfold main, sshMachine, createDockerMachine.
  run_pure. expose.
  unfold retryPromiseIfNeeded. cbn [maxTriesOrDefault].
  rewrite attemptPromise_eq.
  do 5 call_succeeds_unless E others_ok.
  expose. unfold retryPromiseIfNeeded. cbn [maxTriesOrDefault].
  do 4 (swarm_creation_fails_once E create_fails;
        cbn [invokeCb]; rewrite (removeSwarmManager_run E); normal_world;
        any_reply E).
  swarm_creation_fails_once E create_fails.
  run_pure. normal_world. unfold processExit, ora, DockerMachine.
  match goal with |- P (Exited, ?w) => apply (HP w) end; reflexivity.
Qed.

End SwarmManagerNeverCreated.

(** X7: when host A comes up and every attempt to create host B fails, the
    workflow exits after five attempts to create host B through host A and
    four removals of it in between.  The address of host B is never asked
    for, no secret is generated, host A is left as it is (nothing removes
    it), and the last things the operator sees are the failed spinner of
    the step and the same message as for host A. *)
Theorem swarm_creation_exhausted_halts :
  forall E : Env,
    (forall h c,
        c <> MachineSsh MOTHERSHIP_NODE_NAME
               (createSwarmCommand (enteredToken E)) ->
        exists r, respond E h c = Ok r) ->
    (forall h, exists err,
        respond E h
          (MachineSsh MOTHERSHIP_NODE_NAME
             (createSwarmCommand (enteredToken E))) = Failed err) ->
    let create :=
      MachineSsh MOTHERSHIP_NODE_NAME (createSwarmCommand (enteredToken E)) in
    let rm :=
      MachineSsh MOTHERSHIP_NODE_NAME (rmCommand SWARM_MANAGER_NODE_NAME) in
    fst (main E initial) = Exited /\
    map fst (calls (snd (main E initial))) =
      [MachineCreate MOTHERSHIP_NODE_NAME "digitalocean" (enteredToken E);
       MachineInspect MOTHERSHIP_NODE_NAME;
       MachineSsh MOTHERSHIP_NODE_NAME installComposeCommand;
       MachineSsh MOTHERSHIP_NODE_NAME chmodComposeCommand;
       MachineSsh MOTHERSHIP_NODE_NAME installMachineCommand;
       create; rm; create; rm; create; rm; create; rm; create] /\
    last (removelast (console (snd (main E initial)))) ConsoleClear =
      SpinnerFail "Creating droplet for Mothership swarm manager..." /\
    last (console (snd (main E initial))) ConsoleClear =
      ConsoleLog "Could not successfully create node on 5 attempts." /\
    drawn (snd (main E initial)) = 0.
Proof.
  intros E Hok Hfail create rm.
  apply (main_when_swarm_creation_fails E Hok Hfail).
  intros w Hcalls Hspinner Hmessage Hdrawn. cbn [fst snd]. auto.
Qed.

Lemma swarmNeverCreatedEnv_others (h : list Entry) (c : Call) :
  c <> MachineSsh MOTHERSHIP_NODE_NAME
         (createSwarmCommand (enteredToken swarmNeverCreatedEnv)) ->
  exists r, respond swarmNeverCreatedEnv h c = Ok r.
Proof.
  intros Hc.
  destruct c as [name driver token | name | name command | command];
    cbn [respond swarmNeverCreatedEnv friendlyEnv];
    try (eexists; reflexivity).
  destruct (String.eqb name MOTHERSHIP_NODE_NAME) eqn:Hname;
    destruct (String.eqb command (createSwarmCommand "token")) eqn:Hcmd;
    cbn [andb];
    try (destruct (String.eqb command ipCommand); eexists; reflexivity).
  apply String.eqb_eq in Hname, Hcmd. subst. contradiction Hc. reflexivity.
Qed.

Lemma swarm_creation_exhausted_halts_witness :
  let create :=
    MachineSsh MOTHERSHIP_NODE_NAME
      (createSwarmCommand (enteredToken swarmNeverCreatedEnv)) in
  let rm :=
    MachineSsh MOTHERSHIP_NODE_NAME (rmCommand SWARM_MANAGER_NODE_NAME) in
  fst (main swarmNeverCreatedEnv initial) = Exited /\
  map fst (calls (snd (main swarmNeverCreatedEnv initial))) =
    [MachineCreate MOTHERSHIP_NODE_NAME "digitalocean"
       (enteredToken swarmNeverCreatedEnv);
     MachineInspect MOTHERSHIP_NODE_NAME;
     MachineSsh MOTHERSHIP_NODE_NAME installComposeCommand;
     MachineSsh MOTHERSHIP_NODE_NAME chmodComposeCommand;
     MachineSsh MOTHERSHIP_NODE_NAME installMachineCommand;
     create; rm; create; rm; create; rm; create; rm; create] /\
  last (removelast (console (snd (main swarmNeverCreatedEnv initial))))
    ConsoleClear =
    SpinnerFail "Creating droplet for Mothership swarm manager..." /\
  last (console (snd (main swarmNeverCreatedEnv initial))) ConsoleClear =
    ConsoleLog "Could not successfully create node on 5 attempts." /\
  drawn (snd (main swarmNeverCreatedEnv initial)) = 0.
Proof.
  apply (swarm_creation_exhausted_halts swarmNeverCreatedEnv).
  - exact swarmNeverCreatedEnv_others.
  - intros h. eexists. reflexivity.
Defined.

(** X8: when nothing fails the workflow ends by telling the operator which
    DNS records to add: the last two things printed are the table, with
    the trimmed address of host B for [@] and [*] and the address of host A
    as inspected for [mothership], and the URL under the domain the
    operator typed.  No spinner was marked failed, and one secret of 256
    bytes was drawn in the whole run. *)
Theorem success_report_shows_addresses :
  forall E : Env,
    (forall h c, exists r, respond E h c = Ok r) ->
    exists rawIp mothershipIp,
      fst (main E initial) = Exited /\
      In (MachineInspect MOTHERSHIP_NODE_NAME, Ok mothershipIp)
         (calls (snd (main E initial))) /\
      In (MachineSsh MOTHERSHIP_NODE_NAME ipCommand, Ok rawIp)
         (calls (snd (main E initial))) /\
      last (removelast (console (snd (main E initial)))) ConsoleClear =
        ConsoleTable
          [ ["Name"; "Type"; "IP Address"];
            ["@"; "A"; trim rawIp];
            ["*"; "A"; trim rawIp];
            ["mothership"; "A"; mothershipIp] ] /\
      last (console (snd (main E initial))) ConsoleClear =
        ConsoleLog
          ("After adding these resource records visit Mothership online: http://mothership."
           +++ enteredDomain E) /\
      forallb (fun o => negb (isSpinnerFail o))
        (console (snd (main E initial))) = true /\
      drawn (snd (main E initial)) = 256.
Proof.
  intros E Hok. apply (main_report_when_nothing_fails E Hok).
  intros rawIp mothershipIp h w _ Hinspect Hip _ Htable Hurl Hspin Hdrawn.
  exists rawIp, mothershipIp. cbn [fst snd]. auto 10.
Qed.

Lemma success_report_shows_addresses_witness :
  exists rawIp mothershipIp,
    fst (main friendlyEnv initial) = Exited /\
    In (MachineInspect MOTHERSHIP_NODE_NAME, Ok mothershipIp)
       (calls (snd (main friendlyEnv initial))) /\
    In (MachineSsh MOTHERSHIP_NODE_NAME ipCommand, Ok rawIp)
       (calls (snd (main friendlyEnv initial))) /\
    last (removelast (console (snd (main friendlyEnv initial)))) ConsoleClear =
      ConsoleTable
        [ ["Name"; "Type"; "IP Address"];
          ["@"; "A"; trim rawIp];
          ["*"; "A"; trim rawIp];
          ["mothership"; "A"; mothershipIp] ] /\
    last (console (snd (main friendlyEnv initial))) ConsoleClear =
      ConsoleLog
        ("After adding these resource records visit Mothership online: http://mothership."
         +++ enteredDomain friendlyEnv) /\
    forallb (fun o => negb (isSpinnerFail o))
      (console (snd (main friendlyEnv initial))) = true /\
    drawn (snd (main friendlyEnv initial)) = 256.
Proof.
  apply (success_report_shows_addresses friendlyEnv).
  exact friendlyEnv_answers.
Defined.

(** X10: an address of host B that is empty once trimmed is not detected.
    When nothing fails and the reply to [docker-machine ip] is white space
    only, the workflow runs to its end all the same: the cluster is
    initialised with nothing after [--advertise-addr], the descriptor
    carries an empty manager address, and so does the table shown to the
    operator. *)
Theorem blank_address_goes_undetected :
  forall E : Env,
    (forall h c, exists r, respond E h c = Ok r) ->
    (forall h r,
        respond E h (MachineSsh MOTHERSHIP_NODE_NAME ipCommand) = Ok r ->
        isBlank r = true) ->
    exists mothershipIp,
      fst (main E initial) = Exited /\
      map fst (calls (snd (main E initial))) =
        expectedCalls (enteredToken E) EmptyString
          (composeTemplate (toStringHex (bytesFrom E 0 256))
             (enteredDomain E) EmptyString) /\
      In (MachineSsh MOTHERSHIP_NODE_NAME
            (onSwarm "docker swarm init --advertise-addr "))
         (map fst (calls (snd (main E initial)))) /\
      last (removelast (console (snd (main E initial)))) ConsoleClear =
        ConsoleTable
          [ ["Name"; "Type"; "IP Address"];
            ["@"; "A"; EmptyString];
            ["*"; "A"; EmptyString];
            ["mothership"; "A"; mothershipIp] ].
Proof.
  intros E Hok Hblank. apply (main_report_when_nothing_fails E Hok).
  intros rawIp mothershipIp h w Hreply _ _ Hcalls Htable _ _ _.
  pose proof (trim_blank rawIp (Hblank h rawIp Hreply)) as Htrim.
  rewrite Htrim in Hcalls, Htable.
  exists mothershipIp. cbn [fst snd]. repeat split; try assumption.
  rewrite Hcalls. unfold expectedCalls. do 7 right. left. reflexivity.
Qed.

Lemma blankAddressEnv_answers :
  forall h c, exists r, respond blankAddressEnv h c = Ok r.
Proof.
  intros h c. destruct c as [name driver token | name | name command | command];
    cbn [respond blankAddressEnv friendlyEnv]; try (eexists; reflexivity).
  destruct (String.eqb command ipCommand); eexists; reflexivity.
Qed.

Lemma blank_address_goes_undetected_witness :
  exists mothershipIp,
    fst (main blankAddressEnv initial) = Exited /\
    map fst (calls (snd (main blankAddressEnv initial))) =
      expectedCalls (enteredToken blankAddressEnv) EmptyString
        (composeTemplate (toStringHex (bytesFrom blankAddressEnv 0 256))
           (enteredDomain blankAddressEnv) EmptyString) /\
    In (MachineSsh MOTHERSHIP_NODE_NAME
          (onSwarm "docker swarm init --advertise-addr "))
       (map fst (calls (snd (main blankAddressEnv initial)))) /\
    last (removelast (console (snd (main blankAddressEnv initial))))
      ConsoleClear =
      ConsoleTable
        [ ["Name"; "Type"; "IP Address"];
          ["@"; "A"; EmptyString];
          ["*"; "A"; EmptyString];
          ["mothership"; "A"; mothershipIp] ].
Proof.
  apply (blank_address_goes_undetected blankAddressEnv).
  - exact blankAddressEnv_answers.
  - intros h r Hr. cbn in Hr. injection Hr as <-. reflexivity.
Defined.

(** X11: the address of host B is the reply to [docker-machine ip] without
    the white space around it.  When nothing fails and the reply is a text
    that starts and ends with a printable character, with white space
    before and after it (the line break of the command's output), that
    text, whole and alone, is the address the cluster is initialised with,
    the address written into the descriptor and the address shown to the
    operator. *)
Theorem address_used_without_surrounding_white_space :
  forall (E : Env) (address : string),
    (forall h c, exists r, respond E h c = Ok r) ->
    startsPrintable address = true ->
    endsPrintable address = true ->
    (forall h r,
        respond E h (MachineSsh MOTHERSHIP_NODE_NAME ipCommand) = Ok r ->
        exists before after,
          r = before +++ address +++ after /\
          isBlank before = true /\ isBlank after = true) ->
    exists mothershipIp,
      map fst (calls (snd (main E initial))) =
        expectedCalls (enteredToken E) address
          (composeTemplate (toStringHex (bytesFrom E 0 256))
             (enteredDomain E) address) /\
      last (removelast (console (snd (main E initial)))) ConsoleClear =
        ConsoleTable
          [ ["Name"; "Type"; "IP Address"];
            ["@"; "A"; address];
            ["*"; "A"; address];
            ["mothership"; "A"; mothershipIp] ].
Proof.
  intros E address Hok Hstart Hend Hreply.
  apply (main_report_when_nothing_fails E Hok).
  intros rawIp mothershipIp h w Hip _ _ Hcalls Htable _ _ _.
  destruct (Hreply h rawIp Hip) as (before & after & -> & Hb & Ha).
  rewrite (trim_keeps before address after Hb Ha Hstart Hend)
    in Hcalls, Htable.
  exists mothershipIp. cbn [fst snd]. split; assumption.
Qed.

Lemma address_used_without_surrounding_white_space_witness :
  exists mothershipIp,
    map fst (calls (snd (main friendlyEnv initial))) =
      expectedCalls (enteredToken friendlyEnv) "203.0.113.20"
        (composeTemplate (toStringHex (bytesFrom friendlyEnv 0 256))
           (enteredDomain friendlyEnv) "203.0.113.20") /\
    last (removelast (console (snd (main friendlyEnv initial)))) ConsoleClear =
      ConsoleTable
        [ ["Name"; "Type"; "IP Address"];
          ["@"; "A"; "203.0.113.20"];
          ["*"; "A"; "203.0.113.20"];
          ["mothership"; "A"; mothershipIp] ].
Proof.
  apply (address_used_without_surrounding_white_space friendlyEnv
           "203.0.113.20").
  - exact friendlyEnv_answers.
  - reflexivity.
  - reflexivity.
  - intros h r Hr. cbn in Hr. injection Hr as <-.
    exists EmptyString, nl. repeat split.
Defined.

(** ** What every run issues, and how every run ends *)

Lemma retried_Forall (P : Call -> Prop) (c cc : Call) :
  P c -> P cc ->
  forall (n : nat) (l : list Entry) (ok : bool),
    List.length l <= n -> retried c cc l ok ->
    Forall (fun e => P (fst e)) l.
Proof.
  intros Hc Hcc. induction n as [| n IH]; intros l ok Hlen Hshape.
  - destruct l; [destruct Hshape | cbn in Hlen; lia].
  - destruct l as [| [c1 r1] [| [c2 r2] rest]]; cbn [retried] in Hshape.
    + destruct Hshape.
    + destruct Hshape as [-> _]. constructor; [exact Hc | constructor].
    + destruct Hshape as (-> & _ & -> & Hrest).
      constructor; [exact Hc |]. constructor; [exact Hcc |].
      apply (IH rest ok); [cbn in Hlen; lia | exact Hrest].
Qed.

(** X9: in every environment, whatever fails, [main] issues no call
    outside [knownCall]: host A is created with the digitalocean driver and
    the token the operator typed, the only local command is the removal of
    host A, and everything else is one of the thirteen step commands or the
    creation (with the same token) or removal of host B, run in a session
    on host A. *)
Theorem main_issues_known_calls_only :
  forall E : Env,
    Forall (fun e => knownCall (enteredToken E) (fst e))
      (calls (snd (main E initial))).
Proof.
  intros E.
  assert (Hlogs :
            logs (fun _ l =>
                    Forall (fun e => knownCall (enteredToken E) (fst e)) l)
                 (main E)).
  { apply main_logs.
    - intros _. constructor.
    - intros _ l1 l2 H1 H2. apply Forall_app. split; assumption.
    - intros c r Hstep. constructor; [| constructor].
      right. right. left. exact Hstep.
    - intros ok l Hshape.
      apply (retried_Forall (knownCall (enteredToken E))
               (MachineCreate MOTHERSHIP_NODE_NAME "digitalocean"
                  (enteredToken E))
               (SpawnSync (rmCommand MOTHERSHIP_NODE_NAME)))
        with (n := List.length l) (ok := ok); auto.
      + left. reflexivity.
      + right. left. reflexivity.
    - intros ok l Hshape.
      apply (retried_Forall (knownCall (enteredToken E))
               (MachineSsh MOTHERSHIP_NODE_NAME
                  (createSwarmCommand (enteredToken E)))
               (MachineSsh MOTHERSHIP_NODE_NAME
                  (rmCommand SWARM_MANAGER_NODE_NAME)))
        with (n := List.length l) (ok := ok); auto.
      + right. right. right. left. reflexivity.
      + right. right. right. right. reflexivity. }
  destruct (Hlogs initial) as (l & Hcalls & Hall).
  cbn [calls initial app] in Hcalls. rewrite Hcalls. exact Hall.
Qed.

Section RetriedOutcome.
Variable E : Env.
Variables c cc : Call.
Variable cb : Error -> Async World unit.
Hypothesis cb_run :
  forall err w,
    cb err w = (Fulfilled tt, record (cc, respond E (calls w) cc) w).
Variable n : Z.

(** A creation under retry is fulfilled or rejected, nothing else. *)
Lemma attemptPromise_retried_outcome :
  forall (fuel : nat) (attempt : Z) (w : World),
    Z.to_nat (n - attempt) <= fuel ->
    exists l,
      calls (snd (attemptPromise (bind (external E c) (fun _ => ret tt))
                    (Some cb) n attempt w)) = calls w ++ l /\
      ((fst (attemptPromise (bind (external E c) (fun _ => ret tt))
               (Some cb) n attempt w) = Fulfilled tt /\
        retried c cc l true) \/
       (exists err,
          fst (attemptPromise (bind (external E c) (fun _ => ret tt))
                 (Some cb) n attempt w) = Rejected err /\
          retried c cc l false)).
Proof.
  induction fuel as [| fuel IH]; intros attempt w Hfuel;
    rewrite attemptPromise_eq, bind_eq;
    destruct (respond E (calls w) c) as [r | err] eqn:Hr;
    try (rewrite (external_ok E c w r Hr); exists [(c, Ok r)];
         split; [reflexivity | left; cbn; repeat split; reflexivity]);
    rewrite (external_failed E c w err Hr);
    destruct (Z.geb_spec attempt n) as [Hge | Hlt];
    try (exists [(c, Failed err)];
         split; [reflexivity
                | right; exists err; cbn; repeat split; reflexivity]);
    try lia.
  cbn [invokeCb]. rewrite cb_run.
  destruct (IH (attempt + 1)%Z
              (record (cc, respond E (calls (record (c, Failed err) w)) cc)
                 (record (c, Failed err) w)))
    as (l & Hcalls & Hend); [lia |].
  exists ((c, Failed err)
          :: (cc, respond E (calls (record (c, Failed err) w)) cc) :: l).
  split.
  - rewrite Hcalls. cbn [record calls]. rewrite <- !app_assoc. reflexivity.
  - destruct Hend as [[Ho Hshape] | (e & Ho & Hshape)].
    + left. split; [exact Ho |]. cbn [retried]. repeat split. exact Hshape.
    + right. exists e. split; [exact Ho |]. cbn [retried]. repeat split.
      exact Hshape.
Qed.

End RetriedOutcome.

Section Ends.
Variable E : Env.
Variable R : Ending -> list Entry -> Prop.
Hypothesis R_returned : R Returned [].
Hypothesis R_quit : R Quit [].
Hypothesis R_app :
  forall e l1 l2, R Returned l1 -> R e l2 -> R e (l1 ++ l2).
Hypothesis R_step :
  forall command r,
    StepCall (MachineSsh MOTHERSHIP_NODE_NAME command) ->
    R (match r with Ok _ => Returned | Failed err => Threw err end)
      [(MachineSsh MOTHERSHIP_NODE_NAME command, r)].
Hypothesis R_inspect :
  forall r,
    R (match r with Ok _ => Returned | Failed _ => Died end)
      [(MachineInspect MOTHERSHIP_NODE_NAME, r)].
Hypothesis R_createA :
  forall ok l,
    retried (MachineCreate MOTHERSHIP_NODE_NAME "digitalocean" (enteredToken E))
      (SpawnSync (rmCommand MOTHERSHIP_NODE_NAME)) l ok ->
    R (if ok then Returned else Quit) l.
Hypothesis R_createB :
  forall ok l,
    retried
      (MachineSsh MOTHERSHIP_NODE_NAME (createSwarmCommand (enteredToken E)))
      (MachineSsh MOTHERSHIP_NODE_NAME (rmCommand SWARM_MANAGER_NODE_NAME))
      l ok ->
    R (if ok then Returned else Quit) l.

Lemma ends_ret {A} (a : A) : ends R (ret a).
Proof. intros w. exists []. cbn. rewrite app_nil_r. auto. Qed.

Lemma ends_emit (o : Output) : ends R (emit o).
Proof. intros w. exists []. cbn. rewrite app_nil_r. auto. Qed.

Lemma ends_exit {A} : ends R (@processExit A).
Proof. intros w. exists []. cbn. rewrite app_nil_r. auto. Qed.

Lemma ends_bind {A B} (m : Async World A) (k : A -> Async World B) :
  ends R m -> (forall a, ends R (k a)) -> ends R (bind m k).
Proof.
  intros Hm Hk w. rewrite bind_eq.
  destruct (Hm w) as (l1 & Hc1 & HR1).
  destruct (m w) as [[a | err | | |] w1]; cbn [fst snd ending] in *;
    try (exists l1; split; assumption).
  destruct (Hk a w1) as (l2 & Hc2 & HR2).
  exists (l1 ++ l2). split.
  - rewrite Hc2, Hc1, app_assoc. reflexivity.
  - apply R_app; assumption.
Qed.

Lemma ends_start (spinner : string) : ends R (start spinner).
Proof. apply ends_bind; [apply ends_emit | intros _; apply ends_ret]. Qed.

Lemma ends_prompt {B} (prompt : string) (k : string -> Async World B) :
  ends R (k (operator E prompt)) ->
  ends R (bind (promptForInput E prompt) k).
Proof.
  intros Hk w.
  destruct (Hk (display (Question (prompt +++ nl +++ "> ")) w))
    as (l & Hc & HR).
  exists l. split; assumption.
Qed.

Lemma ends_step (command : string) :
  StepCall (MachineSsh MOTHERSHIP_NODE_NAME command) ->
  ends R (external E (MachineSsh MOTHERSHIP_NODE_NAME command)).
Proof.
  intros Hc w.
  exists [(MachineSsh MOTHERSHIP_NODE_NAME command,
           respond E (calls w) (MachineSsh MOTHERSHIP_NODE_NAME command))].
  unfold external, issue.
  pose proof (R_step command
                (respond E (calls w) (MachineSsh MOTHERSHIP_NODE_NAME command))
                Hc) as HR.
  destruct (respond E (calls w) (MachineSsh MOTHERSHIP_NODE_NAME command));
    cbn in *; auto.
Qed.

Lemma ends_inspect : ends R (getMachineIp E MOTHERSHIP_NODE_NAME).
Proof.
  intros w.
  exists [(MachineInspect MOTHERSHIP_NODE_NAME,
           respond E (calls w) (MachineInspect MOTHERSHIP_NODE_NAME))].
  unfold getMachineIp, issue.
  pose proof (R_inspect
                (respond E (calls w) (MachineInspect MOTHERSHIP_NODE_NAME)))
    as HR.
  destruct (respond E (calls w) (MachineInspect MOTHERSHIP_NODE_NAME));
    cbn in *; auto.
Qed.

Lemma ends_content (domain ip : string) :
  ends R (dockerComposeContent E domain ip).
Proof. intros w. exists []. cbn. rewrite app_nil_r. auto. Qed.

(** A creation with its two handlers: the spinner succeeds, or the failure
    is reported and the process exits. *)
Lemma ends_creation (c cc : Call) (cb : Error -> Async World unit)
    (spinner message : string) :
  (forall err w,
      cb err w = (Fulfilled tt, record (cc, respond E (calls w) cc) w)) ->
  (forall ok l, retried c cc l ok -> R (if ok then Returned else Quit) l) ->
  ends R
    (catch
       (bind (retryPromiseIfNeeded (bind (external E c) (fun _ => ret tt))
                (Some cb) None)
             (fun _ => succeed spinner))
       (fun _ => bind (fail spinner)
                   (fun _ => bind (consoleLog message)
                      (fun _ => processExit)))).
Proof.
  intros Hcb HR w. rewrite catch_eq, bind_eq. unfold retryPromiseIfNeeded.
  destruct (attemptPromise_retried_outcome E c cc cb Hcb
              (maxTriesOrDefault None)
              (Z.to_nat (maxTriesOrDefault None - 1)) 1%Z w)
    as (l & Hcalls & [[Ho Hshape] | (err & Ho & Hshape)]); [lia | |].
  - destruct (attemptPromise _ _ _ _ w) as [o w1]. cbn [fst snd] in *.
    subst o. exists l. split; [exact Hcalls | exact (HR true l Hshape)].
  - destruct (attemptPromise _ _ _ _ w) as [o w1]. cbn [fst snd] in *.
    subst o. exists l. split; [exact Hcalls | exact (HR false l Hshape)].
Qed.

Ltac ends_prim :=
  first
    [ apply ends_emit
    | apply ends_start
    | apply ends_content
    | apply ends_exit
    | apply ends_inspect
    | apply ends_step; constructor
    | eapply ends_creation;
      [ first [apply removeMothershipNode_run | apply removeSwarmManager_run]
      | first [exact R_createA | exact R_createB] ] ].

(** Every run of [main], in every environment, ends as [R] says. *)
Lemma main_ends : ends R (main E).
Proof.
  unfold main. cbv zeta.
  unfold sshMachine, createDockerMachine, DockerMachine, ora.
  repeat first [ apply ends_prompt
               | apply ends_bind; [ends_prim | intros ?] ].
  ends_prim.
Qed.

End Ends.

Lemma lastEntry_app (l1 l2 : list Entry) :
  lastEntry (l1 ++ l2) =
  match lastEntry l2 with
  | Some x => Some x
  | None => lastEntry l1
  end.
Proof.
  unfold lastEntry. rewrite rev_app_distr.
  destruct (rev l2) as [| x xs]; reflexivity.
Qed.

Lemma lastEntry_snoc (l : list Entry) (x : Entry) :
  lastEntry (l ++ [x]) = Some x.
Proof. rewrite lastEntry_app. reflexivity. Qed.

Lemma retried_last (c cc : Call) :
  forall (n : nat) (l : list Entry) (ok : bool),
    List.length l <= n -> retried c cc l ok ->
    exists l0 r, l = l0 ++ [(c, r)] /\ isOk r = ok.
Proof.
  induction n as [| n IH]; intros l ok Hlen Hshape.
  - destruct l; [destruct Hshape | cbn in Hlen; lia].
  - destruct l as [| [c1 r1] [| [c2 r2] rest]]; cbn [retried] in Hshape.
    + destruct Hshape.
    + destruct Hshape as [-> Hok]. exists [], r1. split; [reflexivity | exact Hok].
    + destruct Hshape as (-> & _ & -> & Hrest).
      destruct (IH rest ok) as (l0 & r & -> & Hok);
        [cbn in Hlen; lia | exact Hrest |].
      exists ((c, r1) :: (cc, r2) :: l0), r. split; [reflexivity | exact Hok].
Qed.

Lemma bind_never_fulfilled {S A B} (m : Async S A) (k : A -> Async S B) :
  (forall a s, fulfilled (fst (k a s)) = false) ->
  forall s, fulfilled (fst (bind m k s)) = false.
Proof.
  intros Hk s. rewrite bind_eq.
  destruct (m s) as [[a | err | | |] s1]; try reflexivity. apply Hk.
Qed.

Lemma main_never_fulfilled (E : Env) (w : World) :
  fulfilled (fst (main E w)) = false.
Proof.
  revert w. unfold main. cbv zeta.
  repeat (apply bind_never_fulfilled; intros ?).
  reflexivity.
Qed.

(** How a run can end, read off the calls it issued. *)
Lemma main_endings (E : Env) :
  ends (fun e l =>
          match e with
          | Returned =>
              forall x, lastEntry l = Some x -> isOk (snd x) = true
          | Threw err =>
              exists command l0,
                l = l0 ++ [(MachineSsh MOTHERSHIP_NODE_NAME command, Failed err)]
                /\ StepCall (MachineSsh MOTHERSHIP_NODE_NAME command)
          | Quit =>
              forall x, lastEntry l = Some x ->
                isOk (snd x) = true \/
                creationOf (enteredToken E) (fst x) <> None
          | Stalled => False
          | Died =>
              exists err l0,
                l = l0 ++ [(MachineInspect MOTHERSHIP_NODE_NAME, Failed err)]
          end)
       (main E).
Proof.
  apply main_ends.
  - intros x Hx. discriminate Hx.
  - intros x Hx. discriminate Hx.
  - intros e l1 l2 H1 H2. destruct e as [| err | | |].
    + intros x Hx. rewrite lastEntry_app in Hx.
      destruct (lastEntry l2) as [y |] eqn:Hy; [apply H2 | apply H1];
        congruence.
    + destruct H2 as (command & l0 & -> & Hstep).
      exists command, (l1 ++ l0). rewrite app_assoc.
      split; [reflexivity | exact Hstep].
    + intros x Hx. rewrite lastEntry_app in Hx.
      destruct (lastEntry l2) as [y |] eqn:Hy.
      * apply H2. congruence.
      * left. apply H1. exact Hx.
    + exact H2.
    + destruct H2 as (err & l0 & ->).
      exists err, (l1 ++ l0). rewrite app_assoc. reflexivity.
  - intros command r Hstep. destruct r as [r | err].
    + intros x Hx. injection Hx as <-. reflexivity.
    + exists command, []. split; [reflexivity | exact Hstep].
  - intros [r | err].
    + intros x Hx. injection Hx as <-. reflexivity.
    + exists err, []. reflexivity.
  - intros ok l Hshape.
    destruct (retried_last _ _ (List.length l) l ok (le_n _) Hshape)
      as (l0 & r & -> & Hok).
    destruct ok; intros x Hx; rewrite lastEntry_snoc in Hx;
      injection Hx as <-.
    + exact Hok.
    + right. discriminate.
  - intros ok l Hshape.
    destruct (retried_last _ _ (List.length l) l ok (le_n _) Hshape)
      as (l0 & r & -> & Hok).
    destruct ok; intros x Hx; rewrite lastEntry_snoc in Hx;
      injection Hx as <-.
    + exact Hok.
    + right. cbn [fst creationOf]. rewrite !String.eqb_refl. discriminate.
Qed.

(** X6: in every environment [main] ends in one of three ways.  Either the
    process exits, and then the last call issued succeeded or was a failed
    attempt to create a host; or [main] is rejected with an error, and then
    the last call issued is one of the step commands run on host A and
    failed with that very error; or the process dies of an uncaught
    exception, and then the last call issued is the inspection of host A,
    which failed.  [main] never returns normally, and with every call
    answered it never stays pending. *)
Theorem main_ends_in_exit_or_step_failure :
  forall E : Env,
    match fst (main E initial) with
    | Exited =>
        forall x, lastEntry (calls (snd (main E initial))) = Some x ->
          isOk (snd x) = true \/
          creationOf (enteredToken E) (fst x) <> None
    | Rejected err =>
        exists command l0,
          calls (snd (main E initial)) =
            l0 ++ [(MachineSsh MOTHERSHIP_NODE_NAME command, Failed err)] /\
          StepCall (MachineSsh MOTHERSHIP_NODE_NAME command)
    | Crashed =>
        exists err l0,
          calls (snd (main E initial)) =
            l0 ++ [(MachineInspect MOTHERSHIP_NODE_NAME, Failed err)]
    | Fulfilled _ => False
    | Unsettled => False
    end.
Proof.
  intros E.
  destruct (main_endings E initial) as (l & Hcalls & Hend).
  pose proof (main_never_fulfilled E initial) as Hnever.
  cbn [calls initial app] in Hcalls. rewrite Hcalls.
  destruct (fst (main E initial)) as [[] | err | | |]; cbn [ending] in Hend.
  - discriminate Hnever.
  - exact Hend.
  - exact Hend.
  - exact Hend.
  - exact Hend.
Qed.

(** ** A failed inspection of host A *)

Section InspectFails.
Variable E : Env.
Hypothesis create_ok :
  forall h, exists r,
    respond E h
      (MachineCreate MOTHERSHIP_NODE_NAME "digitalocean" (enteredToken E)) =
    Ok r.
Hypothesis inspect_fails :
  forall h, exists err,
    respond E h (MachineInspect MOTHERSHIP_NODE_NAME) = Failed err.

Lemma main_when_inspect_fails (P : Outcome unit * World -> Prop) :
  (forall r err,
     P (Crashed,
        mkWorld
          [(MachineCreate MOTHERSHIP_NODE_NAME "digitalocean" (enteredToken E),
            Ok r);
           (MachineInspect MOTHERSHIP_NODE_NAME, Failed err)]
          (bannerShown ++
           [SpinnerSucceed
              "Creating droplet for Mothership (this may take a few moments)..."])
          0)) ->
  P (main E initial).
Proof.
  intros HP.
  unfold main, sshMachine, createDockerMachine.
  run_pure. expose.
  unfold retryPromiseIfNeeded. cbn [maxTriesOrDefault].
  rewrite attemptPromise_eq. expose.
  match goal with
  | |- context [external E ?c ?w0] =>
      destruct (create_ok (calls w0)) as [r Hr];
      rewrite (external_ok E c w0 r Hr); clear Hr
  end.
  cbv iota beta. run_pure. normal_world. expose.
  match goal with
  | |- context [getMachineIp E ?name ?w0] =>
      destruct (inspect_fails (calls w0)) as [err Herr];
      rewrite (getMachineIp_failed E name w0 err Herr); clear Herr
  end.
  cbv iota beta. normal_world. unfold ora.
  apply HP.
Qed.

End InspectFails.

(** X12: when host A is created and its inspection fails, [getMachineIp]
    calls [reject] and goes on to read [result.driver] of a result that is
    not there: the TypeError is thrown in the callback of [inspect], where
    nothing catches it, and the process dies.  The inspection is the last
    call, nothing is run on host A, and the operator sees no failed
    spinner and no message of the script after the creation of host A
    succeeded. *)
Theorem inspect_failure_crashes_the_process :
  forall E : Env,
    (forall h, exists r,
        respond E h
          (MachineCreate MOTHERSHIP_NODE_NAME "digitalocean" (enteredToken E))
        = Ok r) ->
    (forall h, exists err,
        respond E h (MachineInspect MOTHERSHIP_NODE_NAME) = Failed err) ->
    fst (main E initial) = Crashed /\
    map fst (calls (snd (main E initial))) =
      [MachineCreate MOTHERSHIP_NODE_NAME "digitalocean" (enteredToken E);
       MachineInspect MOTHERSHIP_NODE_NAME] /\
    console (snd (main E initial)) =
      bannerShown ++
      [SpinnerSucceed
         "Creating droplet for Mothership (this may take a few moments)..."].
Proof.
  intros E Hcreate Hinspect.
  apply (main_when_inspect_fails E Hcreate Hinspect).
  intros r err. cbn [fst snd calls console map]. repeat split.
Qed.

Lemma inspect_failure_crashes_the_process_witness :
  fst (main inspectFailsEnv initial) = Crashed /\
  map fst (calls (snd (main inspectFailsEnv initial))) =
    [MachineCreate MOTHERSHIP_NODE_NAME "digitalocean"
       (enteredToken inspectFailsEnv);
     MachineInspect MOTHERSHIP_NODE_NAME] /\
  console (snd (main inspectFailsEnv initial)) =
    bannerShown ++
    [SpinnerSucceed
       "Creating droplet for Mothership (this may take a few moments)..."].
Proof.
  apply (inspect_failure_crashes_the_process inspectFailsEnv).
  - intros h. eexists. reflexivity.
  - intros h. eexists. reflexivity.
Defined.

(** ** What reaches docker-compose.yml *)

Lemma length_append (a b : string) :
  String.length (a +++ b) = String.length a + String.length b.
Proof.
  induction a as [| c a IH]; [reflexivity |]. cbn. rewrite IH. reflexivity.
Qed.

(** X13: the descriptor does not reach the file as it was rendered.  It
    is sent between double quotes and has double quotes of its own, around
    the three port mappings; the shell takes these for the end and the
    start of quoted parts and removes them.  When nothing fails and the
    domain and the address are literal inside double quotes, what is added
    to docker-compose.yml is the descriptor with the port mappings not
    quoted, six characters shorter, followed by a line break. *)
Theorem written_descriptor_loses_port_quotes :
  forall E : Env,
    (forall h c, exists r, respond E h c = Ok r) ->
    literalInQuotes (enteredDomain E) = true ->
    (forall h r,
        respond E h (MachineSsh MOTHERSHIP_NODE_NAME ipCommand) = Ok r ->
        literalInQuotes (trim r) = true) ->
    exists rawIp,
      let secret := toStringHex (bytesFrom E 0 256) in
      let content := composeTemplate secret (enteredDomain E) (trim rawIp) in
      let written :=
        composeHead +++ secret +++ composeAfterSecret +++ enteredDomain E +++
        composeAfterDomain +++ SWARM_MANAGER_NODE_NAME +++ composeAfterName +++
        trim rawIp +++ composeTailUnquoted in
      In (MachineSsh MOTHERSHIP_NODE_NAME (writeComposeCommand content))
         (map fst (calls (snd (main E initial)))) /\
      sh (writeComposeCommand content) =
        Redirected Append "docker-compose.yml" (written +++ nl) /\
      String.length content = String.length written + 6 /\
      written <> content.
Proof.
  intros E Hok Hdomain Haddress.
  apply (main_report_when_nothing_fails E Hok).
  intros rawIp mothershipIp h w Hip _ _ Hcalls _ _ _ _.
  exists rawIp. intros secret content written.
  pose proof (Haddress h rawIp Hip) as Hliteral.
  assert (Hwritten : withoutQuotes content = written).
  { unfold content, written, secret.
    rewrite (composeTemplate_split _ (enteredDomain E) (trim rawIp)).
    rewrite withoutQuotes_app.
    rewrite (withoutQuotes_literal _
               (composeTemplate_literal E _ _ Hdomain Hliteral)).
    change (withoutQuotes composeTail) with composeTailUnquoted.
    rewrite !append_assoc. reflexivity. }
  assert (Hlength : String.length content = String.length written + 6).
  { unfold content, written, secret, composeTemplate.
    rewrite !length_append.
    change (String.length composeTail)
      with (String.length composeTailUnquoted + 6).
    lia. }
  split; [| split; [| split; [exact Hlength |]]].
  - cbn [snd]. rewrite Hcalls. unfold expectedCalls.
    do 11 right. left. reflexivity.
  - rewrite <- Hwritten. unfold content, secret.
    apply (sh_writeComposeCommand E (enteredDomain E) (trim rawIp)
             Hdomain Hliteral).
  - intros Heq. rewrite Heq in Hlength. lia.
Qed.

Lemma written_descriptor_loses_port_quotes_witness :
  exists rawIp,
    let secret := toStringHex (bytesFrom friendlyEnv 0 256) in
    let content :=
      composeTemplate secret (enteredDomain friendlyEnv) (trim rawIp) in
    let written :=
      composeHead +++ secret +++ composeAfterSecret +++
      enteredDomain friendlyEnv +++
      composeAfterDomain +++ SWARM_MANAGER_NODE_NAME +++ composeAfterName +++
      trim rawIp +++ composeTailUnquoted in
    In (MachineSsh MOTHERSHIP_NODE_NAME (writeComposeCommand content))
       (map fst (calls (snd (main friendlyEnv initial)))) /\
    sh (writeComposeCommand content) =
      Redirected Append "docker-compose.yml" (written +++ nl) /\
    String.length content = String.length written + 6 /\
    written <> content.
Proof.
  apply (written_descriptor_loses_port_quotes friendlyEnv).
  - exact friendlyEnv_answers.
  - reflexivity.
  - exact friendlyEnv_address_literal.
Defined.
